(** * Cognitive Skills Profiler: the client (src/App.tsx, types)

    A shallow embedding of the React client.  Component state ([useState])
    is a record, every handler is a function on that record, an effect hook is
    a function run after the state change that triggers it, and an [async]
    handler is split at its [await] into the part that runs at the call and
    the part that runs when the request settles.

    JavaScript data is modelled as follows:
    - a [number] holding a count, an index, an id or a number of seconds is
      an integer ([Z]); the result of a division and of [Math.random] is a
      rational ([Q]);
    - a [Set<string>] is a [gset string]; an object used as a dictionary
      ([UserAnswer], [categoryResults]) is a [gmap string _], which holds the
      entries of the object but not the order in which [Object.entries]
      lists them;
    - an array is a [list]; where aliasing matters (shuffleArray) arrays live
      in a heap indexed by references. *)

From Stdlib Require Import ZArith QArith Ascii String List.
From stdpp Require Import gmap gmultiset strings list fin_maps pretty.

Open Scope string_scope.
Open Scope list_scope.
Open Scope Z_scope.

(** * Part I: the embedding *)

(** ** Data model (types) *)

Record Analysis := {
  title : string;
  overall_summary : string;
  strengths_analysis : string;
  growth_analysis : string;
  action_item : string;
}.

(** [Category.id] is [cat_id] and [Question.id] is [q_id] here; [Category.title]
    is [cat_title] ([title] is taken by [Analysis]). *)
Record Category := {
  cat_id : string;
  cat_title : string;
  description : string;
  icon : string;
}.

Record Question := {
  q_id : Z;
  category : string;
  questionText : string;
  options : list string;
}.

(** [interface UserAnswer { [questionId: string]: number }] *)
Abbreviation UserAnswer := (gmap string Z).

Record CategoryResult := {
  correct : Z;
  total : Z;
}.

Record TestResults := {
  totalCorrect : Z;
  totalQuestions : Z;
  categoryResults : gmap string CategoryResult;
}.

(** [SubmitResponse.results] and [.analysis] are [resp_results] and
    [resp_analysis]: [results] is a [Screen] and [analysis] a field of the
    [App] state below. *)
Record SubmitResponse := {
  resp_results : TestResults;
  resp_analysis : Analysis;
}.

(** [type Screen = 'selection' | 'test' | 'loading' | 'results'] *)
Inductive Screen := selection | test | loading | results.

#[global] Instance Screen_eq_dec : EqDecision Screen.
Proof. solve_decision. Defined.

Definition API_BASE_URL : string := "https://profiler-backend-5plw.onrender.com".

(** ** JavaScript built-ins used by the client *)

(** [x || fallback] on an optional string: [undefined] and the empty string
    are falsy. *)
Definition or_default (x : option string) (fallback : string) : string :=
  match x with
  | Some s => if decide (s = "") then fallback else s
  | None => fallback
  end.

(** [Number.prototype.toString] on a safe integer (below [2^53] in absolute
    value) is its decimal numeral.  Larger numbers are rounded by the real
    method, which writes an exponent from [1e21] on; what depends on the
    digits is stated for safe integers only ([safe_integer] below). *)
Definition toString (n : Z) : string := pretty n.

Definition is_white (c : ascii) : bool :=
  let n := Z.of_N (N_of_ascii c) in
  ((n =? 32) || ((9 <=? n) && (n <=? 13)))%Z.

Fixpoint skip_white (s : string) : string :=
  match s with
  | String c s' => if is_white c then skip_white s' else s
  | EmptyString => s
  end.

Definition digit_val (radix : Z) (c : ascii) : option Z :=
  let n := Z.of_N (N_of_ascii c) in
  let v := if ((48 <=? n) && (n <=? 57))%Z then Some (n - 48)
           else if ((97 <=? n) && (n <=? 122))%Z then Some (n - 87)
           else if ((65 <=? n) && (n <=? 90))%Z then Some (n - 55)
           else None in
  match v with
  | Some d => if d <? radix then Some d else None
  | None => None
  end.

Fixpoint parse_digits (radix : Z) (acc : option Z) (s : string) : option Z :=
  match s with
  | String c s' =>
      match digit_val radix c with
      | Some d => parse_digits radix (Some (radix * default 0 acc + d)) s'
      | None => acc
      end
  | EmptyString => acc
  end.

(** [parseInt(s)] with no radix: leading white space, an optional sign, an
    optional [0x], then the longest run of digits; [None] stands for [NaN]. *)
Definition parseInt (s : string) : option Z :=
  let s1 := skip_white s in
  let '(sign, s2) :=
    match s1 with
    | String "-" r => (-1, r)
    | String "+" r => (1, r)
    | _ => (1, s1)
    end in
  let '(radix, s3) :=
    match s2 with
    | String "0" (String "x" r) => (16, r)
    | String "0" (String "X" r) => (16, r)
    | _ => (10, s2)
    end in
  (λ n, sign * n) <$> parse_digits radix None s3.

(** [Math.random]: the generator is a stream of numbers and a position. *)
Record Rng := {
  rng_stream : nat → Q;
  rng_pos : nat;
}.

Definition Math_random (r : Rng) : Q * Rng :=
  (rng_stream r (rng_pos r),
   {| rng_stream := rng_stream r; rng_pos := Datatypes.S (rng_pos r) |}).

(** [Array.prototype.sort(comparefn)].  The algorithm is left to the engine;
    it is modelled as a stable insertion sort.  [comparefn] may have an effect
    (the shuffle's comparator draws a random number), so it threads a state:
    [a] is placed before [b] when [comparefn a b] is not positive. *)
Section ArraySort.
Context {A St : Type}.
Variable comparefn : A → A → St → Q * St.

Fixpoint sort_insert (x : A) (sorted : list A) (s : St) : list A * St :=
  match sorted with
  | [] => ([x], s)
  | y :: rest =>
      let '(c, s1) := comparefn x y s in
      if Qle_bool c 0 then (x :: y :: rest, s1)
      else let '(rest', s2) := sort_insert x rest s1 in (y :: rest', s2)
  end.

Fixpoint array_sort (l : list A) (s : St) : list A * St :=
  match l with
  | [] => ([], s)
  | x :: l' => let '(sorted, s1) := array_sort l' s in sort_insert x sorted s1
  end.
End ArraySort.

(** ** shuffleArray *)

(** Arrays are objects: a reference into a heap of array contents. *)
Abbreviation ref := positive.
Abbreviation Heap A := (gmap positive (list A)).

(** [[...array]]: a new array with the same elements. *)
Definition spread {A} (array : ref) (h : Heap A) : option (ref * Heap A) :=
  match h !! array with
  | Some xs => let copy := fresh (dom h) in Some (copy, <[copy := xs]> h)
  | None => None
  end.

(** [array.sort(comparefn)] sorts in place and returns the same reference. *)
Definition sort_in_place {A St} (comparefn : A → A → St → Q * St)
    (array : ref) (h : Heap A) (s : St) : option (ref * Heap A * St) :=
  match h !! array with
  | Some xs =>
      let '(ys, s') := array_sort comparefn xs s in
      Some (array, <[array := ys]> h, s')
  | None => None
  end.

(** [() => Math.random() - 0.5] *)
Definition randomCompare {A} (_ _ : A) (r : Rng) : Q * Rng :=
  let '(x, r') := Math_random r in ((x - (1 # 2))%Q, r').

(** [shuffleArray = array => [...array].sort(() => Math.random() - 0.5)] *)
Definition shuffleArray {A} (array : ref) (h : Heap A) (r : Rng)
  : option (ref * Heap A * Rng) :=
  match spread array h with
  | Some (copy, h1) => sort_in_place randomCompare copy h1 r
  | None => None
  end.

(** ** CategorySelectionScreen *)

(** [handleSelect]: copy the set, then delete the id if present, add it
    otherwise, and store the copy. *)
Definition handleSelect (selected : gset string) (id : string) : gset string :=
  let newSelected := selected in
  if decide (id ∈ newSelected) then newSelected ∖ {[ id ]}
  else newSelected ∪ {[ id ]}.

(** [handleStart]: the categories whose id is selected, in display order. *)
Definition handleStart (categories : list Category) (selected : gset string)
  : list Category :=
  filter (λ cat, cat_id cat ∈ selected) categories.

(** The Start button is [disabled] when nothing is selected. *)
Definition startDisabled (selected : gset string) : bool :=
  bool_decide (size selected = 0%nat).

(** ** TestScreen *)

(** The component's props are [questions], [onSubmit] and [timeLimit]; a call
    of [onSubmit] is the optional output of a step.  The JSX is not modelled
    beyond the buttons it renders; it reads [currentQuestion.category], so a
    render without a current question throws, whereas the model lets the
    hooks and handlers of such a component run on, which only adds runs.
    The state of the component: *)
Record TestScreenState := {
  currentQuestionIndex : Z;
  userAnswers : UserAnswer;
  timeLeft : Z;
  timer : bool;   (* the interval of hook 1 is set and not yet cleared *)
}.

Definition setCurrentQuestionIndex (i : Z) (st : TestScreenState) :=
  {| currentQuestionIndex := i; userAnswers := userAnswers st;
     timeLeft := timeLeft st; timer := timer st |}.

Definition setUserAnswers (a : UserAnswer) (st : TestScreenState) :=
  {| currentQuestionIndex := currentQuestionIndex st; userAnswers := a;
     timeLeft := timeLeft st; timer := timer st |}.

Definition setTimeLeft (t : Z) (st : TestScreenState) :=
  {| currentQuestionIndex := currentQuestionIndex st;
     userAnswers := userAnswers st; timeLeft := t; timer := timer st |}.

Definition setTimer (b : bool) (st : TestScreenState) :=
  {| currentQuestionIndex := currentQuestionIndex st;
     userAnswers := userAnswers st; timeLeft := timeLeft st; timer := b |}.

(** [questions[i]]: [undefined] out of range. *)
Definition question_at (questions : list Question) (i : Z) : option Question :=
  if i <? 0 then None else questions !! Z.to_nat i.

Definition questions_length (questions : list Question) : Z :=
  Z.of_nat (length questions).

(** Hook 1 when the test starts: reset the time, and start the interval
    unless [timeLimit <= 0]. *)
Definition countdownStart (timeLimit : Z) (st : TestScreenState) : TestScreenState :=
  let st := setTimeLeft timeLimit st in
  if timeLimit <=? 0 then st else setTimer true st.

(** The interval callback of hook 1:
    [setTimeLeft(prevTime => prevTime <= 1 ? (clearInterval(timer), 0) : prevTime - 1)]. *)
Definition countdownTick (st : TestScreenState) : TestScreenState :=
  let prevTime := timeLeft st in
  if prevTime <=? 1 then setTimeLeft 0 (setTimer false st)
  else setTimeLeft (prevTime - 1) st.

(** One second passes: the callback runs if the interval is set. *)
Definition second_passes (st : TestScreenState) : TestScreenState :=
  if timer st then countdownTick st else st.

(** The time shown: [Math.floor(timeLeft / 60)] and [timeLeft % 60]. *)
Definition minutes (st : TestScreenState) : Z := timeLeft st / 60.
Definition seconds (st : TestScreenState) : Z := Z.rem (timeLeft st) 60.

(** Hook 2, the submit-on-timeout watcher: the answers handed to [onSubmit],
    if it calls it. *)
Definition submitOnTimeout (questions : list Question) (st : TestScreenState)
  : option UserAnswer :=
  if (timeLeft st =? 0) && (0 <? questions_length questions)
  then Some (userAnswers st) else None.

(** [handleAnswerSelect]: [None] when [questions[currentQuestionIndex]] is
    undefined (reading its [id] throws). *)
Definition handleAnswerSelect (questions : list Question) (st : TestScreenState)
    (answerIndex : Z) : option TestScreenState :=
  match question_at questions (currentQuestionIndex st) with
  | Some q =>
      let currentQuestionId := toString (q_id q) in
      Some (setUserAnswers (<[currentQuestionId := answerIndex]> (userAnswers st)) st)
  | None => None
  end.

Definition handleNext (questions : list Question) (st : TestScreenState) :=
  if currentQuestionIndex st <? questions_length questions - 1
  then setCurrentQuestionIndex (currentQuestionIndex st + 1) st else st.

Definition handlePrev (st : TestScreenState) :=
  if 0 <? currentQuestionIndex st
  then setCurrentQuestionIndex (currentQuestionIndex st - 1) st else st.

(** What can happen to a mounted test screen: the interval fires, or one of
    the rendered buttons is clicked.  The option buttons are those of
    [currentQuestion.options.map((option, index) => ...)]. *)
Inductive TestEvent :=
  | Tick
  | ClickOption (index : nat)
  | ClickPrevious
  | ClickNext
  | ClickSubmit.

#[global] Instance TestEvent_eq_dec : EqDecision TestEvent.
Proof. solve_decision. Defined.

(** One event: the next state and the call of [onSubmit] it causes, or [None]
    when the event cannot happen (no interval, no such button, a disabled
    button).  Hook 2 runs again after a render in which [timeLeft] or
    [userAnswers] changed. *)
Definition TestScreen_step (questions : list Question) (st : TestScreenState)
    (ev : TestEvent) : option (TestScreenState * option UserAnswer) :=
  match ev with
  | Tick =>
      if timer st then
        let st' := countdownTick st in
        Some (st', if decide (timeLeft st' = timeLeft st) then None
                   else submitOnTimeout questions st')
      else None
  | ClickOption index =>
      match question_at questions (currentQuestionIndex st) with
      | Some currentQuestion =>
          match options currentQuestion !! index with
          | Some _ =>
              match handleAnswerSelect questions st (Z.of_nat index) with
              | Some st' => Some (st', submitOnTimeout questions st')
              | None => None
              end
          | None => None
          end
      | None => None
      end
  | ClickPrevious =>
      if currentQuestionIndex st =? 0 then None
      else Some (handlePrev st, None)
  | ClickNext =>
      if currentQuestionIndex st <? questions_length questions - 1
      then Some (handleNext questions st, None) else None
  | ClickSubmit =>
      if currentQuestionIndex st <? questions_length questions - 1
      then None else Some (st, Some (userAnswers st))
  end.

(** Mounting: the initial state, then hook 1 and hook 2. *)
Definition TestScreen_mount (questions : list Question) (timeLimit : Z)
  : TestScreenState * option UserAnswer :=
  let st := countdownStart timeLimit
    {| currentQuestionIndex := 0; userAnswers := ∅;
       timeLeft := timeLimit; timer := false |} in
  (st, submitOnTimeout questions st).

(** A run of the mounted component.  [onSubmit] makes the parent leave the
    test screen, which unmounts the component: nothing follows it. *)
Fixpoint TestScreen_run (questions : list Question)
    (cur : TestScreenState * option UserAnswer) (evs : list TestEvent)
  : option (TestScreenState * option UserAnswer) :=
  match evs with
  | [] => Some cur
  | ev :: evs' =>
      match cur.2 with
      | Some _ => None
      | None =>
          match TestScreen_step questions cur.1 ev with
          | Some next => TestScreen_run questions next evs'
          | None => None
          end
      end
  end.

Definition TestScreen_exec (questions : list Question) (timeLimit : Z)
    (evs : list TestEvent) : option (TestScreenState * option UserAnswer) :=
  TestScreen_run questions (TestScreen_mount questions timeLimit) evs.

Definition ticks (evs : list TestEvent) : Z :=
  Z.of_nat (length (filter (λ ev, ev = Tick) evs)).

(** An answer index is valid for a question when it is the index of one of
    its options. *)
Definition valid_option (q : Question) (i : Z) : Prop :=
  0 ≤ i < Z.of_nat (length (options q)).

(** Every entry of the answers is a valid option of a question of the test
    with that id. *)
Definition answers_valid (questions : list Question) (answers : UserAnswer) : Prop :=
  ∀ k i, answers !! k = Some i →
    ∃ q, q ∈ questions ∧ toString (q_id q) = k ∧ valid_option q i.

(** ** ResultsScreen *)

(** [a / b] on numbers: [None] stands for the non-finite results
    ([Infinity], [-Infinity], [NaN]) of a division by zero. *)
Definition js_div (a b : Q) : option Q :=
  if Qeq_bool b 0 then None else Some (a / b)%Q.

(** [ResultBar]: [percentage = total > 0 ? (correct / total) * 100 : 0]. *)
Definition percentage (correct total : Z) : option Q :=
  if 0 <? total then
    match js_div (inject_Z correct) (inject_Z total) with
    | Some q => Some (q * 100)%Q
    | None => None
    end
  else Some 0%Q.

Record ResultBarView := {
  label : string;
  bar_correct : Z;
  bar_total : Z;
  width : option Q;
}.

Definition ResultBar (label : string) (correct total : Z) : ResultBarView :=
  {| label := label; bar_correct := correct; bar_total := total;
     width := percentage correct total |}.

Record ResultsView := {
  overallCorrect : Z;
  overallTotal : Z;
  breakdown : list ResultBarView;
  shownError : option string;
  shownAnalysis : option Analysis;
}.

Section ResultsScreen.
(** [String.prototype.localeCompare] depends on the locale of the browser. *)
Variable localeCompare : string → string → Z.

Definition compareKeys (a b : string * CategoryResult) (u : unit) : Q * unit :=
  (inject_Z (localeCompare a.1 b.1), u).

(** [Object.entries(results.categoryResults).sort(...)] *)
Definition sortedEntries (r : TestResults) : list (string * CategoryResult) :=
  (array_sort compareKeys (map_to_list (categoryResults r)) ()).1.

Definition ResultsScreen (r : TestResults) (analysis : option Analysis)
    (error : option string) : ResultsView :=
  {| overallCorrect := totalCorrect r;
     overallTotal := totalQuestions r;
     breakdown :=
       (λ e, ResultBar e.1 (correct e.2) (total e.2)) <$> sortedEntries r;
     shownError := error;
     shownAnalysis := analysis |}.
End ResultsScreen.

Definition sum_list (l : list Z) : Z := foldr Z.add 0 l.

(** The sums of the [correct] and of the [total] fields over the entries of
    [categoryResults]. *)
Definition sumCorrect (r : TestResults) : Z :=
  sum_list ((λ e, correct e.2) <$> map_to_list (categoryResults r)).

Definition sumTotal (r : TestResults) : Z :=
  sum_list ((λ e, total e.2) <$> map_to_list (categoryResults r)).

(** ** App *)

Record AppState := {
  screen : Screen;
  quizQuestions : list Question;
  testResults : option TestResults;
  analysis : option Analysis;
  error : option string;
  allCategories : list Category;
  timeLimit : Z;
}.

Definition App_initial : AppState :=
  {| screen := selection; quizQuestions := []; testResults := None;
     analysis := None; error := None; allCategories := []; timeLimit := 0 |}.

Definition setScreen (s : Screen) (st : AppState) :=
  {| screen := s; quizQuestions := quizQuestions st;
     testResults := testResults st; analysis := analysis st;
     error := error st; allCategories := allCategories st;
     timeLimit := timeLimit st |}.

Definition setQuizQuestions (q : list Question) (st : AppState) :=
  {| screen := screen st; quizQuestions := q;
     testResults := testResults st; analysis := analysis st;
     error := error st; allCategories := allCategories st;
     timeLimit := timeLimit st |}.

Definition setTestResults (r : option TestResults) (st : AppState) :=
  {| screen := screen st; quizQuestions := quizQuestions st;
     testResults := r; analysis := analysis st;
     error := error st; allCategories := allCategories st;
     timeLimit := timeLimit st |}.

Definition setAnalysis (a : option Analysis) (st : AppState) :=
  {| screen := screen st; quizQuestions := quizQuestions st;
     testResults := testResults st; analysis := a;
     error := error st; allCategories := allCategories st;
     timeLimit := timeLimit st |}.

Definition setError (e : option string) (st : AppState) :=
  {| screen := screen st; quizQuestions := quizQuestions st;
     testResults := testResults st; analysis := analysis st;
     error := e; allCategories := allCategories st;
     timeLimit := timeLimit st |}.

Definition setAllCategories (c : list Category) (st : AppState) :=
  {| screen := screen st; quizQuestions := quizQuestions st;
     testResults := testResults st; analysis := analysis st;
     error := error st; allCategories := c;
     timeLimit := timeLimit st |}.

Definition setTimeLimit (t : Z) (st : AppState) :=
  {| screen := screen st; quizQuestions := quizQuestions st;
     testResults := testResults st; analysis := analysis st;
     error := error st; allCategories := allCategories st;
     timeLimit := t |}.

(** *** Requests and how they settle *)

Inductive Method := GET | POST.

Inductive Body :=
  | NoBody
  | StartBody (categories : list string)          (* { categories: categoryIds } *)
  | SubmitBody (answers : gmultiset (option Z * Z)). (* { answers: backendAnswers } *)

Record Request := {
  url : string;
  method : Method;
  headers : list (string * string);
  body : Body;
}.

(** What a [catch] receives: an [Error] with its message, or something else. *)
Inductive Thrown := ErrorObj (message : string) | NonError.

(** [await response.json()] *)
Inductive Json (A : Type) := JsonThrows (e : Thrown) | JsonValue (v : A).
Arguments JsonThrows {A} e.
Arguments JsonValue {A} v.

(** [await fetch(...)]: the promise rejects, or there is a response, whose
    [ok] is false (its body then read for [detail]) or true. *)
Inductive Fetched (A : Type) :=
  | Rejects (e : Thrown)
  | NotOk (err : Json (option string))
  | Ok (data : Json A).
Arguments Rejects {A} e.
Arguments NotOk {A} err.
Arguments Ok {A} data.

Record StartResponse := {
  questions : list Question;
  timeLimitSeconds : Z;
}.

(** The [try] block up to the parsed data: the value, or what is thrown.
    [if (!response.ok) { const err = await response.json();
                         throw new Error(err.detail || fallback) }] *)
Definition try_fetch {A} (r : Fetched A) (fallback : string) : Thrown + A :=
  match r with
  | Rejects e => inl e
  | NotOk (JsonThrows e) => inl e
  | NotOk (JsonValue detail) => inl (ErrorObj (or_default detail fallback))
  | Ok (JsonThrows e) => inl e
  | Ok (JsonValue data) => inr data
  end.

(** [if (e instanceof Error) setError(e.message); else setError(fallback)] *)
Definition catch_message (e : Thrown) (fallback : string) : string :=
  match e with
  | ErrorObj message => message
  | NonError => fallback
  end.

(** *** fetchCategories *)

Definition categories_request : Request :=
  {| url := API_BASE_URL +:+ "/categories"; method := GET;
     headers := []; body := NoBody |}.

(** Here a response that is not ok throws without reading the body. *)
Definition fetchCategories_settle (r : Fetched (list Category)) (st : AppState)
  : AppState :=
  let outcome :=
    match r with
    | NotOk _ => inl (ErrorObj "Failed to fetch categories")
    | _ => try_fetch r ""
    end in
  match outcome with
  | inr data => setAllCategories data st
  | inl e => setError (Some (catch_message e "Failed to load categories.")) st
  end.

(** *** handleStartTest *)

Definition start_request (categories : list Category) : Request :=
  let categoryIds := cat_id <$> categories in
  {| url := API_BASE_URL +:+ "/start-test"; method := POST;
     headers := [("Content-Type", "application/json")];
     body := StartBody categoryIds |}.

(** Up to the [await]. *)
Definition handleStartTest_call (categories : list Category) (st : AppState)
  : AppState * Request :=
  (setError None (setScreen loading st), start_request categories).

(** From the [await] on. *)
Definition handleStartTest_settle (r : Fetched StartResponse) (st : AppState)
  : AppState :=
  match try_fetch r "Failed to start test" with
  | inr data =>
      setScreen test
        (setAnalysis None
          (setTestResults None
            (setTimeLimit (timeLimitSeconds data)
              (setQuizQuestions (questions data) st))))
  | inl e =>
      setScreen selection
        (setError (Some (catch_message e "An unknown error occurred.")) st)
  end.

(** *** handleSubmitTest *)

(** [Object.entries(answers).map(([qid, option]) =>
      ({ questionId: parseInt(qid), selectedOption: option }))]
    The array is modelled by its elements with their multiplicities; the
    order of [Object.entries] (integer-like keys ascending, then the other
    keys as inserted) is not part of the model. *)
Definition backendAnswers (answers : UserAnswer) : gmultiset (option Z * Z) :=
  list_to_set_disj ((λ e, (parseInt e.1, e.2)) <$> map_to_list answers).

Definition submit_request (answers : UserAnswer) : Request :=
  {| url := API_BASE_URL +:+ "/submit-test"; method := POST;
     headers := [("Content-Type", "application/json")];
     body := SubmitBody (backendAnswers answers) |}.

Definition handleSubmitTest_call (answers : UserAnswer) (st : AppState)
  : AppState * Request :=
  (setError None (setScreen loading st), submit_request answers).

(** The [try] and [catch] parts, then [finally { setScreen('results') }]. *)
Definition handleSubmitTest_settle (r : Fetched SubmitResponse) (st : AppState)
  : AppState :=
  let st1 :=
    match try_fetch r "Failed to submit test" with
    | inr data =>
        setAnalysis (Some (resp_analysis data))
          (setTestResults (Some (resp_results data)) st)
    | inl e =>
        setError (Some (catch_message e
          "An unknown error occurred while fetching your analysis.")) st
    end in
  setScreen results st1.

(** The whole handler, from the call to the state it leaves when the request
    has settled. *)
Definition handleSubmitTest (answers : UserAnswer) (r : Fetched SubmitResponse)
    (st : AppState) : AppState :=
  handleSubmitTest_settle r (handleSubmitTest_call answers st).1.

(** A request succeeds when the response is ok and its body parses. *)
Definition succeeded {A} (r : Fetched A) : option A :=
  match r with
  | Ok (JsonValue data) => Some data
  | _ => None
  end.

(** *** handleTestAgain *)

Definition handleTestAgain (st : AppState) : AppState :=
  setError None
    (setAnalysis None
      (setTestResults None
        (setQuizQuestions [] (setScreen selection st)))).

(** *** The running application *)

(** [renderScreen]: which component is mounted. *)
Inductive Rendered :=
  | CategorySelectionScreen
  | TestScreen
  | LoadingScreen
  | ResultsScreenOf (r : TestResults).

Definition renderScreen (st : AppState) : Rendered :=
  match screen st with
  | selection => CategorySelectionScreen
  | test => TestScreen
  | loading => LoadingScreen
  | results =>
      match testResults st with
      | None => LoadingScreen
      | Some r => ResultsScreenOf r
      end
  end.

(** Requests whose promise has not settled yet. *)
Inductive Pending := PendingCategories | PendingStart | PendingSubmit.

#[global] Instance Pending_eq_dec : EqDecision Pending.
Proof. solve_decision. Defined.

(** The application with its environment: the state of [App], the requests
    in flight, and the requests sent so far (oldest first). *)
Record World := {
  app : AppState;
  inflight : list Pending;
  sent : list Request;
}.

(** Remove one occurrence of a pending request, if there is one. *)
Fixpoint settle_one (p : Pending) (l : list Pending) : option (list Pending) :=
  match l with
  | [] => None
  | x :: l' =>
      if decide (x = p) then Some l'
      else match settle_one p l' with
           | Some l'' => Some (x :: l'')
           | None => None
           end
  end.

(** The mounted child calls one of the callbacks it was given, or a request
    settles. *)
Inductive Event :=
  | StartTest (categories : list Category)   (* onStartTest, selection screen *)
  | SubmitTest (answers : UserAnswer)         (* onSubmit, test screen *)
  | TestAgain                                  (* onTestAgain, results screen *)
  | CategoriesSettle (r : Fetched (list Category))
  | StartSettle (r : Fetched StartResponse)
  | SubmitSettle (r : Fetched SubmitResponse).

(** Mounting [App]: the initial state; the effect calls [fetchCategories]. *)
Definition App_mount : World :=
  {| app := App_initial; inflight := [PendingCategories];
     sent := [categories_request] |}.

(** One event; [None] when it cannot happen: a callback of a component that
    is not mounted, or the settling of a request that is not in flight.
    [StartTest] and [SubmitTest] are allowed with any argument, whatever the
    child component would pass. *)
Definition App_step (w : World) (ev : Event) : option World :=
  match ev with
  | StartTest categories =>
      match renderScreen (app w) with
      | CategorySelectionScreen =>
          let '(st, rq) := handleStartTest_call categories (app w) in
          Some {| app := st; inflight := PendingStart :: inflight w;
                  sent := sent w ++ [rq] |}
      | _ => None
      end
  | SubmitTest answers =>
      match renderScreen (app w) with
      | TestScreen =>
          let '(st, rq) := handleSubmitTest_call answers (app w) in
          Some {| app := st; inflight := PendingSubmit :: inflight w;
                  sent := sent w ++ [rq] |}
      | _ => None
      end
  | TestAgain =>
      match renderScreen (app w) with
      | ResultsScreenOf _ =>
          Some {| app := handleTestAgain (app w); inflight := inflight w;
                  sent := sent w |}
      | _ => None
      end
  | CategoriesSettle r =>
      match settle_one PendingCategories (inflight w) with
      | Some rest =>
          Some {| app := fetchCategories_settle r (app w); inflight := rest;
                  sent := sent w |}
      | None => None
      end
  | StartSettle r =>
      match settle_one PendingStart (inflight w) with
      | Some rest =>
          Some {| app := handleStartTest_settle r (app w); inflight := rest;
                  sent := sent w |}
      | None => None
      end
  | SubmitSettle r =>
      match settle_one PendingSubmit (inflight w) with
      | Some rest =>
          Some {| app := handleSubmitTest_settle r (app w); inflight := rest;
                  sent := sent w |}
      | None => None
      end
  end.

(** The worlds a run goes through, the first one included. *)
Fixpoint App_trace (w : World) (evs : list Event) : option (list World) :=
  match evs with
  | [] => Some [w]
  | ev :: evs' =>
      match App_step w ev with
      | Some w' =>
          match App_trace w' evs' with
          | Some tr => Some (w :: tr)
          | None => None
          end
      | None => None
      end
  end.

(** The world a run ends in. *)
Fixpoint App_run (w : World) (evs : list Event) : option World :=
  match evs with
  | [] => Some w
  | ev :: evs' =>
      match App_step w ev with
      | Some w' => App_run w' evs'
      | None => None
      end
  end.

(** The screen after [i] events of a run. *)
Definition screen_at (tr : list World) (i : nat) : option Screen :=
  (λ w, screen (app w)) <$> tr !! i.

(** The requests the client makes are these three. *)
Inductive api_request : Request → Prop :=
  | api_categories :
      api_request {| url := API_BASE_URL +:+ "/categories"; method := GET;
                     headers := []; body := NoBody |}
  | api_start_test (categories : list Category) :
      api_request {| url := API_BASE_URL +:+ "/start-test"; method := POST;
                     headers := [("Content-Type", "application/json")];
                     body := StartBody (cat_id <$> categories) |}
  | api_submit_test (answers : UserAnswer) :
      api_request {| url := API_BASE_URL +:+ "/submit-test"; method := POST;
                     headers := [("Content-Type", "application/json")];
                     body := SubmitBody (backendAnswers answers) |}.

(** ** Invariants of the components *)

(** While the interval is set there is at least a second left; once it is
    cleared, or when it was never set, the time left is 0. *)
Definition timer_inv (st : TestScreenState) : Prop :=
  if timer st then 1 ≤ timeLeft st else timeLeft st = 0.

Definition is_tick (ev : TestEvent) : Z :=
  if decide (ev = Tick) then 1 else 0.

(** The answers stay valid, and what is handed to [onSubmit] is the current
    [userAnswers]. *)
Definition answers_inv (questions : list Question)
    (cur : TestScreenState * option UserAnswer) : Prop :=
  answers_valid questions (userAnswers cur.1) ∧
  ∀ a, cur.2 = Some a → a = userAnswers cur.1.

(** With questions, the time left is 0 only in a state whose last step
    called [onSubmit] with the current answers. *)
Definition timeout_inv (cur : TestScreenState * option UserAnswer) : Prop :=
  timeLeft cur.1 = 0 → cur.2 = Some (userAnswers cur.1).

(** How many requests of a kind are in flight. *)
Fixpoint pending_count (p : Pending) (l : list Pending) : nat :=
  match l with
  | [] => 0
  | x :: l' => (if decide (x = p) then 1 else 0) + pending_count p l'
  end.

Definition starting (w : World) : nat := pending_count PendingStart (inflight w).
Definition submitting (w : World) : nat := pending_count PendingSubmit (inflight w).

(** While the loading screen of a request is shown exactly that request is
    in flight, and no start or submit request is in flight otherwise; during
    a test and its submission there are no results. *)
Definition App_inv (w : World) : Prop :=
  match screen (app w) with
  | loading =>
      (starting w = 1%nat ∧ submitting w = 0%nat) ∨
      (starting w = 0%nat ∧ submitting w = 1%nat ∧
       testResults (app w) = None ∧ analysis (app w) = None)
  | test =>
      starting w = 0%nat ∧ submitting w = 0%nat ∧
      testResults (app w) = None ∧ analysis (app w) = None
  | _ => starting w = 0%nat ∧ submitting w = 0%nat
  end.

(** The edges of the screen graph; a step may also leave the screen as it is. *)
Definition screen_edge (s s' : Screen) : bool :=
  match s, s' with
  | selection, loading | loading, test | loading, selection
  | test, loading | loading, results | results, selection => true
  | _, _ => bool_decide (s = s')
  end.

Definition is_post (rq : Request) : Prop := api_request rq ∧ method rq = POST.

(** ** Sample data *)

(** A generator that alternates [0.9] and [0.1]. *)
Definition sample_rng : Rng :=
  {| rng_stream := λ n, if Nat.even n then (9 # 10)%Q else (1 # 10)%Q;
     rng_pos := 0 |}.

Definition sample_category : Category :=
  {| cat_id := "memory"; cat_title := "Memory";
     description := "Recall of sequences"; icon := "brain" |}.

Definition sample_question : Question :=
  {| q_id := 7; category := "Memory"; questionText := "Which came third?";
     options := ["red"; "green"; "blue"] |}.

Definition sample_start : StartResponse :=
  {| questions := [sample_question]; timeLimitSeconds := 2 |}.

Definition sample_analysis : Analysis :=
  {| title := "Profile"; overall_summary := "Good"; strengths_analysis := "Memory";
     growth_analysis := "Speed"; action_item := "Practise" |}.

(** A response whose total does not add up. *)
Definition unbalanced_results : TestResults :=
  {| totalCorrect := 5; totalQuestions := 1;
     categoryResults := {[ "Memory" := {| correct := 1; total := 1 |} ]} |}.

Definition sample_submit : SubmitResponse :=
  {| resp_results := unbalanced_results; resp_analysis := sample_analysis |}.

(** A whole session: the categories arrive, a test is started, answered and
    submitted, and the submission settles with [r]. *)
Definition sample_session (r : Fetched SubmitResponse) : list Event :=
  [ CategoriesSettle (Ok (JsonValue [sample_category]));
    StartTest [sample_category];
    StartSettle (Ok (JsonValue sample_start));
    SubmitTest {[ "7" := 1 ]};
    SubmitSettle r ].

(** Comparison by character codes, one possible [localeCompare]. *)
Definition codeCompare (a b : string) : Z :=
  match String.compare a b with
  | Lt => -1
  | Eq => 0
  | Gt => 1
  end.

(** ** Further parts of the components *)

(** The characters a numeral can start with. *)
Definition nonzero_digit (c : ascii) : Prop :=
  c ∈ ["1"; "2"; "3"; "4"; "5"; "6"; "7"; "8"; "9"]%char.

(** *** CategorySelectionScreen: the cards and the Start button *)

(** The cards are those of [categories.map]; a click on the card of a
    category calls [handleSelect] with its id.  [None]: no such card. *)
Definition clickCard (categories : list Category) (selected : gset string)
    (id : string) : option (gset string) :=
  if decide (id ∈ cat_id <$> categories) then Some (handleSelect selected id)
  else None.

(** A series of clicks on cards, from a given selection. *)
Fixpoint clickCards (categories : list Category) (selected : gset string)
    (ids : list string) : option (gset string) :=
  match ids with
  | [] => Some selected
  | id :: ids' =>
      match clickCard categories selected id with
      | Some selected' => clickCards categories selected' ids'
      | None => None
      end
  end.

(** A click on the Start button: nothing when it is disabled, otherwise
    [handleStart] hands the selected categories to [onStartTest]. *)
Definition clickStart (categories : list Category) (selected : gset string)
  : option (list Category) :=
  if startDisabled selected then None else Some (handleStart categories selected).

(** How often an id was clicked. *)
Definition clicks_on (id : string) (ids : list string) : nat :=
  length (filter (λ x, x = id) ids).

(** *** TestScreen: what is rendered *)

(** The width of the progress bar:
    [((currentQuestionIndex + 1) / questions.length) * 100]. *)
Definition progress (questions : list Question) (st : TestScreenState)
  : option Q :=
  match js_div (inject_Z (currentQuestionIndex st + 1))
               (inject_Z (questions_length questions)) with
  | Some q => Some (q * 100)%Q
  | None => None
  end.

(** [isSelected = userAnswers[currentQuestion.id.toString()] === index] *)
Definition isSelected (st : TestScreenState) (currentQuestion : Question)
    (index : nat) : bool :=
  bool_decide (userAnswers st !! toString (q_id currentQuestion)
               = Some (Z.of_nat index)).

(** [String.prototype.padStart(targetLength, padString)]: the pad string is
    repeated, and cut, to fill up to the target length. *)
Fixpoint pad_chars (n : nat) (padString cur : string) : string :=
  match n with
  | O => ""
  | Datatypes.S n' =>
      match cur with
      | String c r => String c (pad_chars n' padString r)
      | EmptyString =>
          match padString with
          | String c r => String c (pad_chars n' padString r)
          | EmptyString => ""
          end
      end
  end.

Definition padStart (targetLength : nat) (padString s : string) : string :=
  pad_chars (targetLength - String.length s) padString padString +:+ s.

(** [{seconds.toString().padStart(2, '0')}] *)
Definition secondsShown (st : TestScreenState) : string :=
  padStart 2 "0" (toString (seconds st)).

(** [{minutes}:{...} remaining] *)
Definition timeShown (st : TestScreenState) : string :=
  toString (minutes st) +:+ ":" +:+ secondsShown st +:+ " remaining".

(** In every reachable state the current question exists. *)
Definition index_inv (questions : list Question) (st : TestScreenState) : Prop :=
  0 ≤ currentQuestionIndex st < questions_length questions.

(** *** ResultsScreen: the analysis section *)

(** A string used as a condition: [null] and the empty string are falsy. *)
Definition truthy (x : option string) : bool :=
  match x with
  | Some s => negb (bool_decide (s = ""))
  | None => false
  end.

(** [{!analysis && !error && <div>Loading analysis...</div>}] *)
Definition loadingAnalysisShown (analysis : option Analysis)
    (error : option string) : bool :=
  negb (bool_decide (is_Some analysis)) && negb (truthy error).

(** *** App: the handlers from call to settlement *)

Definition handleStartTest (categories : list Category)
    (r : Fetched StartResponse) (st : AppState) : AppState :=
  handleStartTest_settle r (handleStartTest_call categories st).1.

(** Results and analysis are set, and reset, together. *)
Definition results_inv (st : AppState) : Prop :=
  is_Some (testResults st) ↔ is_Some (analysis st).

(** A request settling, as opposed to a callback of the mounted child. *)
Definition is_settle (ev : Event) : Prop :=
  match ev with
  | CategoriesSettle _ | StartSettle _ | SubmitSettle _ => True
  | _ => False
  end.

(** A session in which the categories arrive after a submission has failed. *)
Definition late_categories_session : list Event :=
  [ StartTest [sample_category];
    StartSettle (Ok (JsonValue sample_start));
    SubmitTest {[ "7" := 1 ]};
    SubmitSettle (NotOk (JsonValue (Some "Scoring failed"))) ].

(** A list is in order for [R] when [R] relates each element to the later ones. *)
Definition sorted_by {A} (R : A → A → Prop) (l : list A) : Prop :=
  ∀ i j a b, (i < j)%nat → l !! i = Some a → l !! j = Some b → R a b.

(** A comparator is usable for sorting when it is total and transitive. *)
Definition consistent_compare (compare : string → string → Z) : Prop :=
  (∀ a b, compare a b ≤ 0 ∨ compare b a ≤ 0) ∧
  (∀ a b c, compare a b ≤ 0 → compare b c ≤ 0 → compare a c ≤ 0).

(** The order of the entries of [categoryResults] by their keys. *)
Definition entry_le (compare : string → string → Z)
    (a b : string * CategoryResult) : Prop :=
  compare a.1 b.1 ≤ 0.

(** Comparison by length, a comparator that is easy to compute with. *)
Definition lengthCompare (a b : string) : Z :=
  Z.of_nat (String.length a) - Z.of_nat (String.length b).

Definition sample_results : TestResults :=
  {| totalCorrect := 3; totalQuestions := 5;
     categoryResults :=
       {[ "Memory" := {| correct := 1; total := 2 |};
          "Logic" := {| correct := 2; total := 3 |} ]} |}.

(** *** The requests of a run *)

(** [Number.isSafeInteger]: the integers a [number] holds exactly and
    [toString] writes digit by digit. *)
Definition safe_integer (n : Z) : Prop := - 2 ^ 53 < n < 2 ^ 53.

(** The request that an event makes the client send: the callbacks
    [onStartTest] and [onSubmit] send one each, nothing else sends any. *)
Definition request_of (ev : Event) : option Request :=
  match ev with
  | StartTest categories => Some (start_request categories)
  | SubmitTest answers => Some (submit_request answers)
  | _ => None
  end.

(** *** The server's scoring *)

(** Modelled from the spec: the answer key of the server, which is not under
    src/.  The spec has the server "compare submitted answers to an answer
    key"; an entry gives, for a question id, its category and the index of
    the right option. *)
Record KeyEntry := {
  key_id : Z;
  key_category : string;
  key_answer : Z;
}.

(** Modelled from the spec: comparing one submitted answer
    ([questionId], [selectedOption]) to the answer key.  An answer whose
    question is not in the key is not graded. *)
Definition grade (key : list KeyEntry) (a : option Z * Z)
  : option (string * bool) :=
  match a.1 with
  | Some questionId =>
      match list_find (λ k, key_id k = questionId) key with
      | Some (_, k) => Some (key_category k, bool_decide (a.2 = key_answer k))
      | None => None
      end
  | None => None
  end.

(** Modelled from the spec: "tally per-category correctness", one graded
    answer at a time: its category gets one more in [total], and one more in
    [correct] when the answer is right. *)
Definition tally_one (acc : gmap string CategoryResult) (g : string * bool)
  : gmap string CategoryResult :=
  let cr := default {| correct := 0; total := 0 |} (acc !! g.1) in
  <[g.1 := {| correct := correct cr + (if g.2 then 1 else 0);
              total := total cr + 1 |}]> acc.

(** Modelled from the spec: the tally of all graded answers. *)
Definition tally (graded : list (string * bool)) : gmap string CategoryResult :=
  foldl tally_one ∅ graded.

(** Modelled from the spec: the [results] of the reply to /submit-test: the
    graded answers that are right, the graded answers, and the tally. *)
Definition score (key : list KeyEntry) (answers : list (option Z * Z))
  : TestResults :=
  let graded := omap (grade key) answers in
  {| totalCorrect := Z.of_nat (length (filter (λ g, g.2 = true) graded));
     totalQuestions := Z.of_nat (length graded);
     categoryResults := tally graded |}.

(** The sum of a field over the values of a tally. *)
Definition field_sum (f : CategoryResult → Z) (m : gmap string CategoryResult)
  : Z :=
  sum_list ((λ e, f e.2) <$> map_to_list m).

(** Modelled from the spec: every successful reply to a submission in a run
    carries results that the server's scoring produced. *)
Definition scored_by_server (evs : list Event) : Prop :=
  ∀ data, SubmitSettle (Ok (JsonValue data)) ∈ evs →
    ∃ key answers, resp_results data = score key answers.

Definition sample_key : list KeyEntry :=
  [ {| key_id := 7; key_category := "Memory"; key_answer := 2 |};
    {| key_id := 8; key_category := "Memory"; key_answer := 0 |};
    {| key_id := 9; key_category := "Logic"; key_answer := 1 |} ].

Definition scored_submit : SubmitResponse :=
  {| resp_results := score sample_key [(Some 7, 2); (Some 8, 1); (Some 9, 1)];
     resp_analysis := sample_analysis |}.

(** * Part II: properties *)

(** ** Proof automation *)

Ltac destruct_ltb :=
  repeat match goal with
  | |- context [?a <=? ?b] => destruct (Z.leb_spec a b)
  | |- context [?a <? ?b] => destruct (Z.ltb_spec a b)
  | |- context [?a =? ?b] => destruct (Z.eqb_spec a b)
  | H : context [?a <=? ?b] |- _ => destruct (Z.leb_spec a b)
  | H : context [?a <? ?b] |- _ => destruct (Z.ltb_spec a b)
  | H : context [?a =? ?b] |- _ => destruct (Z.eqb_spec a b)
  end.

Ltac app_step_cases Hstep :=
  match type of Hstep with
  | context [renderScreen ?st] =>
      unfold renderScreen in Hstep;
      let Hs := fresh "Hs" in
      destruct (screen st) eqn:Hs; try done;
      try match type of Hstep with
          | context [testResults st] =>
              let Hr := fresh "Hr" in
              destruct (testResults st) eqn:Hr; try done
          end
  | context [settle_one ?p ?l] =>
      let Hp := fresh "Hp" in let rest := fresh "rest" in
      destruct (settle_one p l) as [rest|] eqn:Hp; [|done]
  end.

(** ** Category selection *)

Lemma handleSelect_elem_of (selected : gset string) id x :
  x ∈ handleSelect selected id ↔ (x = id ∧ id ∉ selected) ∨ (x ≠ id ∧ x ∈ selected).
Proof.
  unfold handleSelect. cbv zeta. case_decide.
  - rewrite elem_of_difference, elem_of_singleton.
    destruct (decide (x = id)); subst; tauto.
  - rewrite elem_of_union, elem_of_singleton.
    destruct (decide (x = id)); subst; tauto.
Qed.

(** C10: [handleSelect c] flips the membership of [c] in the selection,
    leaves the membership of every other id as it was, and applied twice in a
    row gives back the selection it started from. *)
Theorem handleSelect_toggle_involution (sel : gset string) (c : string) :
  (c ∈ handleSelect sel c ↔ c ∉ sel) ∧
  (∀ x, x ≠ c → (x ∈ handleSelect sel c ↔ x ∈ sel)) ∧
  handleSelect (handleSelect sel c) c = sel.
Proof.
  split; [|split].
  - rewrite handleSelect_elem_of. tauto.
  - intros x Hx. rewrite handleSelect_elem_of. tauto.
  - apply set_eq. intros x. rewrite !handleSelect_elem_of.
    destruct (decide (x = c)) as [->|]; destruct (decide (c ∈ sel)); tauto.
Qed.

Lemma handleSelect_toggle_involution_witness :
  ("memory" ∈ handleSelect {[ "memory" ]} "verbal-logic"
   ↔ "memory" ∈ ({[ "memory" ]} : gset string)) ∧
  handleSelect (handleSelect {[ "memory" ]} "verbal-logic") "verbal-logic"
  = {[ "memory" ]}.
Proof.
  split.
  - apply (proj1 (proj2
      (handleSelect_toggle_involution {[ "memory" ]} "verbal-logic"))).
    discriminate.
  - apply (proj2 (proj2
      (handleSelect_toggle_involution {[ "memory" ]} "verbal-logic"))).
Defined.

(** ** Result bars *)

Lemma js_div_nonzero (a : Q) (d : Z) :
  d ≠ 0 → js_div a (inject_Z d) = Some (a / inject_Z d)%Q.
Proof.
  intros Hd. unfold js_div.
  destruct (Qeq_bool (inject_Z d) 0) eqn:E; [|reflexivity].
  apply Qeq_bool_iff in E. unfold Qeq in E. simpl in E. lia.
Qed.

(** C7: the bar's percentage is [(correct / total) * 100] when [total > 0]
    and [0] when [total = 0]; it is defined for all counts, that is, the
    division is never one by zero. *)
Theorem percentage_guarded (correct total : Z) :
  (0 < total →
     percentage correct total
     = Some ((inject_Z correct / inject_Z total) * 100)%Q) ∧
  (total = 0 → percentage correct total = Some 0%Q) ∧
  percentage correct total ≠ None.
Proof.
  unfold percentage. destruct (0 <? total) eqn:E.
  - apply Z.ltb_lt in E. rewrite js_div_nonzero by lia.
    split; [done|]. split; [lia | done].
  - apply Z.ltb_ge in E. split; [lia|]. split; done.
Qed.

Lemma percentage_guarded_witness :
  percentage 3 4 = Some ((inject_Z 3 / inject_Z 4) * 100)%Q ∧
  percentage 3 0 = Some 0%Q.
Proof.
  split.
  - apply (proj1 (percentage_guarded 3 4)). lia.
  - apply (proj1 (proj2 (percentage_guarded 3 0))). reflexivity.
Defined.

(** ** Sorting and shuffling *)

Section ArraySortFacts.
Context {A St : Type}.
Variable comparefn : A → A → St → Q * St.

Lemma sort_insert_perm x (sorted : list A) s :
  (sort_insert comparefn x sorted s).1 ≡ₚ x :: sorted.
Proof.
  revert s. induction sorted as [|y rest IH]; intros s; simpl; [done|].
  destruct (comparefn x y s) as [c s1].
  destruct (Qle_bool c 0); simpl; [done|].
  specialize (IH s1). destruct (sort_insert comparefn x rest s1) as [rest' s2].
  simpl in *. rewrite IH. apply Permutation_swap.
Qed.

Lemma array_sort_perm (l : list A) s :
  (array_sort comparefn l s).1 ≡ₚ l.
Proof.
  revert s. induction l as [|x l IH]; intros s; simpl; [done|].
  specialize (IH s). destruct (array_sort comparefn l s) as [sorted s1].
  simpl in IH. rewrite sort_insert_perm. by rewrite IH.
Qed.
End ArraySortFacts.

Lemma spread_spec {A} (array : ref) (h : Heap A) xs :
  h !! array = Some xs →
  ∃ copy, spread array h = Some (copy, <[copy := xs]> h) ∧ h !! copy = None.
Proof.
  intros Ha. unfold spread. rewrite Ha. eexists. split; [done|].
  apply not_elem_of_dom. apply is_fresh.
Qed.

(** C9: [shuffleArray a] returns a new array holding a permutation of the
    elements of [a] (the same elements with the same multiplicities), and
    leaves [a], and every other array, as it was: only the copy is sorted. *)
Theorem shuffleArray_pure_permutation {A} (a : ref) (h : Heap A)
    (xs : list A) (r : Rng) :
  h !! a = Some xs →
  ∃ copy h' r' ys,
    shuffleArray a h r = Some (copy, h', r') ∧
    h' !! copy = Some ys ∧ ys ≡ₚ xs ∧
    copy ≠ a ∧ h' !! a = Some xs ∧
    ∀ l, l ≠ copy → h' !! l = h !! l.
Proof.
  intros Ha. destruct (spread_spec a h xs Ha) as (copy & Hs & Hfresh).
  unfold shuffleArray. rewrite Hs. unfold sort_in_place.
  rewrite lookup_insert_eq.
  pose proof (array_sort_perm (@randomCompare A) xs r) as Hp.
  destruct (array_sort randomCompare xs r) as [ys r']. simpl in Hp.
  assert (copy ≠ a) as Hne by (intros ->; congruence).
  exists copy, (<[copy := ys]> (<[copy := xs]> h)), r', ys.
  split; [done|]. split; [apply lookup_insert_eq|]. split; [done|].
  split; [done|]. split.
  - by rewrite !lookup_insert_ne.
  - intros l Hl. by rewrite !lookup_insert_ne.
Qed.

Lemma shuffleArray_pure_permutation_witness :
  ∃ copy h' r' ys,
    shuffleArray 1%positive {[ 1%positive := [10; 20; 30] ]} sample_rng
      = Some (copy, h', r') ∧
    h' !! copy = Some ys ∧ ys ≡ₚ [10; 20; 30] ∧
    copy ≠ 1%positive ∧ h' !! 1%positive = Some [10; 20; 30] ∧
    ∀ l, l ≠ copy → h' !! l = ({[ 1%positive := [10; 20; 30] ]} : Heap Z) !! l.
Proof.
  apply (shuffleArray_pure_permutation 1%positive
           {[ 1%positive := [10; 20; 30] ]} [10; 20; 30] sample_rng).
  reflexivity.
Defined.

(** ** The countdown *)

Lemma mount_timer_inv questions L :
  0 ≤ L →
  timer_inv (TestScreen_mount questions L).1 ∧
  timeLeft (TestScreen_mount questions L).1 = L.
Proof.
  intros HL. unfold TestScreen_mount, countdownStart, timer_inv. simpl.
  destruct_ltb; simpl; lia.
Qed.

Lemma countdownTick_spec st :
  timer st = true → timer_inv st →
  timer_inv (countdownTick st) ∧
  timeLeft (countdownTick st) = timeLeft st - 1 ∧
  userAnswers (countdownTick st) = userAnswers st.
Proof.
  unfold timer_inv, countdownTick. intros Ht. rewrite Ht. intros Hinv.
  destruct_ltb; simpl; [|rewrite Ht]; split_and!; try done; lia.
Qed.

Lemma second_passes_spec st :
  timer_inv st →
  timer_inv (second_passes st) ∧
  timeLeft (second_passes st) = Z.max 0 (timeLeft st - 1).
Proof.
  intros Hinv. unfold second_passes. destruct (timer st) eqn:Ht.
  - destruct (countdownTick_spec st Ht Hinv) as (? & -> & _).
    split; [done|]. unfold timer_inv in Hinv. rewrite Ht in Hinv. lia.
  - split; [done|]. unfold timer_inv in Hinv. rewrite Ht in Hinv. lia.
Qed.

Lemma seconds_pass_spec st n :
  timer_inv st →
  timer_inv (Nat.iter n second_passes st) ∧
  timeLeft (Nat.iter n second_passes st)
  = Z.max 0 (timeLeft st - Z.of_nat n) ∧
  0 ≤ timeLeft (Nat.iter n second_passes st).
Proof.
  intros Hinv. induction n as [|n (IH1 & IH2 & IH3)].
  - simpl. pose proof Hinv as Hinv0. unfold timer_inv in Hinv0.
    destruct (timer st); split_and!; auto; lia.
  - rewrite Nat.iter_succ.
    destruct (second_passes_spec _ IH1) as (H1 & H2).
    split; [done|]. rewrite H2, IH2. lia.
Qed.

Lemma ticks_cons ev evs : ticks (ev :: evs) = is_tick ev + ticks evs.
Proof.
  unfold ticks, is_tick. rewrite filter_cons.
  destruct (decide (ev = Tick)); simpl length; lia.
Qed.

(** What one event does to the time left and to the answers. *)
Lemma TestScreen_step_time questions st ev st' out :
  timer_inv st →
  TestScreen_step questions st ev = Some (st', out) →
  timer_inv st' ∧ timeLeft st' = timeLeft st - is_tick ev.
Proof.
  intros Hinv Hstep. destruct ev; simpl in Hstep; unfold is_tick; simpl.
  - destruct (timer st) eqn:Ht; [|done]. simplify_eq.
    destruct (countdownTick_spec st Ht Hinv) as (? & ? & _). done.
  - destruct (question_at questions (currentQuestionIndex st)) as [q|] eqn:Hq; [|done].
    destruct (options q !! index); [|done].
    unfold handleAnswerSelect in Hstep. rewrite Hq in Hstep. simplify_eq.
    split; [done|]. simpl. lia.
  - destruct (currentQuestionIndex st =? 0); [done|]. simplify_eq.
    unfold handlePrev. destruct (0 <? currentQuestionIndex st); simpl;
      (split; [done|lia]).
  - destruct (currentQuestionIndex st <? questions_length questions - 1) eqn:E;
      [|done].
    simplify_eq. unfold handleNext. rewrite E. split; [done|]. simpl. lia.
  - destruct (currentQuestionIndex st <? questions_length questions - 1);
      [done|].
    simplify_eq. split; [done|lia].
Qed.

Lemma TestScreen_run_time questions evs : ∀ cur st out,
  timer_inv cur.1 →
  TestScreen_run questions cur evs = Some (st, out) →
  timer_inv st ∧ timeLeft st = timeLeft cur.1 - ticks evs.
Proof.
  induction evs as [|ev evs IH]; intros [st0 out0] st out Hinv Hrun;
    simpl in *.
  - simplify_eq. split; [done|]. unfold ticks. simpl. lia.
  - destruct out0; [done|].
    destruct (TestScreen_step questions st0 ev) as [[st1 out1]|] eqn:Hstep;
      [|done].
    destruct (TestScreen_step_time _ _ _ _ _ Hinv Hstep) as (Hinv1 & Ht1).
    destruct (IH (st1, out1) st out Hinv1 Hrun) as (? & Ht).
    split; [done|]. simpl in Ht. rewrite ticks_cons. lia.
Qed.

Lemma timer_inv_nonneg st : timer_inv st → 0 ≤ timeLeft st.
Proof. unfold timer_inv. destruct (timer st); lia. Qed.

(** C2: for a time limit [L ≥ 0] the time left starts at [L]; after [n]
    seconds it is [max 0 (L - n)], so it goes down by one a second and stays
    at 0 once there; and in every state of every run of the test screen it is
    [L] minus the number of ticks so far, is not negative (nor are the
    minutes and seconds shown), and stays 0 after any further event once it
    is 0. *)
Theorem timeLeft_never_negative (questions : list Question) (L : Z) :
  0 ≤ L →
  timeLeft (TestScreen_mount questions L).1 = L ∧
  (∀ n : nat,
     let st := Nat.iter n second_passes (TestScreen_mount questions L).1 in
     timeLeft st = Z.max 0 (L - Z.of_nat n) ∧ 0 ≤ timeLeft st ∧
     (timeLeft st = 0 → timeLeft (second_passes st) = 0)) ∧
  (∀ evs st out,
     TestScreen_exec questions L evs = Some (st, out) →
     timeLeft st = L - ticks evs ∧ 0 ≤ timeLeft st ∧
     0 ≤ minutes st ∧ 0 ≤ seconds st < 60 ∧
     (∀ ev st' out', timeLeft st = 0 →
        TestScreen_step questions st ev = Some (st', out') →
        timeLeft st' = 0)).
Proof.
  intros HL. destruct (mount_timer_inv questions L HL) as (Hinv & Hstart).
  split; [done|]. split.
  - intros n st.
    destruct (seconds_pass_spec _ n Hinv) as (Hinv' & Ht & Hnn).
    fold st in Hinv', Ht, Hnn. rewrite Hstart in Ht.
    split; [done|]. split; [done|]. intros H0.
    destruct (second_passes_spec st Hinv') as (_ & ->). lia.
  - intros evs st out Hrun. unfold TestScreen_exec in Hrun.
    destruct (TestScreen_run_time _ _ _ _ _ Hinv Hrun) as (Hinv' & Ht).
    rewrite Hstart in Ht. split; [done|].
    pose proof (timer_inv_nonneg _ Hinv') as Hnn.
    split; [done|]. split; [by apply Z.div_pos|].
    split; [by apply Z.rem_bound_pos|].
    intros ev st' out' H0 Hstep.
    destruct (TestScreen_step_time _ _ _ _ _ Hinv' Hstep) as (Hinv'' & Ht').
    apply timer_inv_nonneg in Hinv''. unfold is_tick in Ht'.
    destruct (decide (ev = Tick)); lia.
Qed.

(** ** Recorded answers *)

Lemma countdownTick_answers st : userAnswers (countdownTick st) = userAnswers st.
Proof. unfold countdownTick. by destruct (timeLeft st <=? 1). Qed.

Lemma submitOnTimeout_answers questions st a :
  submitOnTimeout questions st = Some a → a = userAnswers st.
Proof.
  unfold submitOnTimeout.
  destruct ((timeLeft st =? 0) && (0 <? questions_length questions)); congruence.
Qed.

Lemma question_at_elem_of questions i q :
  question_at questions i = Some q → q ∈ questions.
Proof.
  unfold question_at. destruct (i <? 0); [done|].
  intros H. by eapply list_elem_of_lookup_2.
Qed.

(** The option buttons record the index of an option of the current question. *)
Lemma ClickOption_records questions st index st' out :
  TestScreen_step questions st (ClickOption index) = Some (st', out) →
  ∃ q, question_at questions (currentQuestionIndex st) = Some q ∧
       q ∈ questions ∧
       userAnswers st'
       = <[toString (q_id q) := Z.of_nat index]> (userAnswers st) ∧
       valid_option q (Z.of_nat index).
Proof.
  simpl. intros Hstep.
  destruct (question_at questions (currentQuestionIndex st)) as [q|] eqn:Hq;
    [|done].
  destruct (options q !! index) as [o|] eqn:Ho; [|done].
  unfold handleAnswerSelect in Hstep. rewrite Hq in Hstep. simplify_eq.
  exists q. split; [done|]. split; [by eapply question_at_elem_of|].
  split; [done|]. apply lookup_lt_Some in Ho. unfold valid_option. lia.
Qed.

Lemma answers_valid_insert questions (answers : UserAnswer) q i :
  q ∈ questions → valid_option q i →
  answers_valid questions answers →
  answers_valid questions (<[toString (q_id q) := i]> answers).
Proof.
  intros Hq Hi Hvalid k j Hk.
  destruct (decide (toString (q_id q) = k)) as [<-|Hne].
  - rewrite lookup_insert_eq in Hk. simplify_eq. by exists q.
  - rewrite lookup_insert_ne in Hk by done. by apply Hvalid.
Qed.

Lemma TestScreen_step_answers questions st ev next :
  answers_valid questions (userAnswers st) →
  TestScreen_step questions st ev = Some next →
  answers_inv questions next.
Proof.
  intros Hvalid Hstep. destruct next as [st' out]. destruct ev.
  - simpl in Hstep. destruct (timer st); [|done]. simplify_eq.
    split; simpl.
    + by rewrite countdownTick_answers.
    + intros a. case_decide; [done|]. apply submitOnTimeout_answers.
  - pose proof Hstep as Hrec.
    apply ClickOption_records in Hrec as (q & Hq & Hin & Hans & Hi).
    split; simpl.
    + rewrite Hans. by apply answers_valid_insert.
    + simpl in Hstep. rewrite Hq in Hstep.
      destruct (options q !! index); [|done].
      unfold handleAnswerSelect in Hstep. rewrite Hq in Hstep.
      injection Hstep as <- <-. intros a. apply submitOnTimeout_answers.
  - simpl in Hstep. destruct (currentQuestionIndex st =? 0); [done|].
    simplify_eq. unfold handlePrev.
    destruct (0 <? currentQuestionIndex st); by split.
  - simpl in Hstep. unfold handleNext in Hstep.
    destruct (currentQuestionIndex st <? questions_length questions - 1);
      [|done].
    simplify_eq. by split.
  - simpl in Hstep.
    destruct (currentQuestionIndex st <? questions_length questions - 1);
      [done|].
    simplify_eq. split; simpl; [done|]. congruence.
Qed.

Lemma TestScreen_run_answers questions evs : ∀ cur final,
  answers_inv questions cur →
  TestScreen_run questions cur evs = Some final →
  answers_inv questions final.
Proof.
  induction evs as [|ev evs IH]; intros [st0 out0] final Hinv Hrun;
    simpl in Hrun.
  - by simplify_eq.
  - destruct out0; [done|].
    destruct (TestScreen_step questions st0 ev) as [next|] eqn:Hstep; [|done].
    eapply IH; [|done]. eapply TestScreen_step_answers; [|done]. apply Hinv.
Qed.

Lemma mount_answers_inv questions L :
  answers_inv questions (TestScreen_mount questions L).
Proof.
  split.
  - intros k i Hk. unfold TestScreen_mount, countdownStart in Hk.
    destruct (L <=? 0); simpl in Hk; by rewrite lookup_empty in Hk.
  - intros a. apply submitOnTimeout_answers.
Qed.

(** C4: an option button records, for the current question [q], an index
    [i] with [0 ≤ i < q.options.length]; and the answers handed to [onSubmit]
    are the recorded [userAnswers], every entry of which is such an index for
    a question of the test with that id.  ([handleAnswerSelect] is called by
    the option buttons only.) *)
Theorem submitted_answers_valid (questions : list Question) (L : Z) :
  (∀ st index st' out,
     TestScreen_step questions st (ClickOption index) = Some (st', out) →
     ∃ q, question_at questions (currentQuestionIndex st) = Some q ∧
          q ∈ questions ∧
          userAnswers st' !! toString (q_id q) = Some (Z.of_nat index) ∧
          valid_option q (Z.of_nat index)) ∧
  (∀ evs st answers,
     TestScreen_exec questions L evs = Some (st, Some answers) →
     answers = userAnswers st ∧ answers_valid questions answers).
Proof.
  split.
  - intros st index st' out Hstep.
    apply ClickOption_records in Hstep as (q & Hq & Hin & Hans & Hi).
    exists q. rewrite Hans, lookup_insert_eq. done.
  - intros evs st answers Hrun.
    pose proof (TestScreen_run_answers _ _ _ _
                  (mount_answers_inv questions L) Hrun) as [Hv Hout].
    simpl in *. rewrite (Hout answers eq_refl). done.
Qed.

(** ** Submission on timeout *)

Lemma submitOnTimeout_nonempty questions st :
  questions ≠ [] → timeLeft st = 0 →
  submitOnTimeout questions st = Some (userAnswers st).
Proof.
  intros Hq H0. unfold submitOnTimeout, questions_length. rewrite H0.
  destruct questions as [|q questions]; [done|]. rewrite Z.eqb_refl.
  destruct (Z.ltb_spec 0 (Z.of_nat (length (q :: questions)))); [done|].
  simpl length in *. lia.
Qed.

Lemma submitOnTimeout_empty st : submitOnTimeout [] st = None.
Proof. unfold submitOnTimeout. simpl. by rewrite andb_false_r. Qed.

Lemma submitOnTimeout_running questions st :
  timeLeft st ≠ 0 → submitOnTimeout questions st = None.
Proof. intros H. unfold submitOnTimeout. by destruct_ltb. Qed.

Lemma TestScreen_step_timeout questions st ev next :
  questions ≠ [] → timeLeft st ≠ 0 →
  TestScreen_step questions st ev = Some next →
  timeout_inv next.
Proof.
  intros Hne Hrun Hstep. destruct next as [st' out]. unfold timeout_inv.
  destruct ev; simpl in *.
  - destruct (timer st); [|done]. simplify_eq. intros H0.
    rewrite decide_False by congruence. by apply submitOnTimeout_nonempty.
  - destruct (question_at questions (currentQuestionIndex st)) as [q|] eqn:Hq;
      [|done].
    destruct (options q !! index); [|done].
    unfold handleAnswerSelect in Hstep. rewrite Hq in Hstep. by simplify_eq.
  - destruct (currentQuestionIndex st =? 0); [done|]. simplify_eq.
    unfold handlePrev. by destruct (0 <? currentQuestionIndex st).
  - unfold handleNext in Hstep.
    destruct (currentQuestionIndex st <? questions_length questions - 1);
      [|done].
    by simplify_eq.
  - destruct (currentQuestionIndex st <? questions_length questions - 1);
      [done|].
    by simplify_eq.
Qed.

Lemma TestScreen_run_timeout questions evs : ∀ cur final,
  questions ≠ [] → timeout_inv cur →
  TestScreen_run questions cur evs = Some final →
  timeout_inv final.
Proof.
  induction evs as [|ev evs IH]; intros [st0 out0] final Hne Hinv Hrun;
    simpl in Hrun.
  - by simplify_eq.
  - destruct out0; [done|].
    destruct (TestScreen_step questions st0 ev) as [next|] eqn:Hstep; [|done].
    eapply IH; [done| |done]. eapply TestScreen_step_timeout; [done| |done].
    intros H0. by specialize (Hinv H0).
Qed.

Lemma mount_timeout_inv questions L :
  questions ≠ [] → timeout_inv (TestScreen_mount questions L).
Proof. intros Hne H0. by apply submitOnTimeout_nonempty. Qed.

(** Without questions only the Submit button calls [onSubmit]. *)
Lemma TestScreen_run_empty evs : ∀ cur final,
  ClickSubmit ∉ evs → cur.2 = None →
  TestScreen_run [] cur evs = Some final → final.2 = None.
Proof.
  induction evs as [|ev evs IH]; intros [st0 out0] final Hno Hnone Hrun;
    simpl in *.
  - by simplify_eq.
  - subst out0.
    destruct (TestScreen_step [] st0 ev) as [next|] eqn:Hstep; [|done].
    apply not_elem_of_cons in Hno as [Hev Hno].
    eapply IH; [done| |done].
    destruct ev; simpl in Hstep.
    + destruct (timer st0); [|done]. simplify_eq. simpl.
      case_decide; [done|]. apply submitOnTimeout_empty.
    + unfold question_at in Hstep.
      by destruct (currentQuestionIndex st0 <? 0).
    + destruct (currentQuestionIndex st0 =? 0); by simplify_eq.
    + destruct (currentQuestionIndex st0 <? questions_length [] - 1);
        by simplify_eq.
    + done.
Qed.

(** The countdown does reach 0: [n + 1] seconds on the clock and as many
    ticks end in a call of [onSubmit]. *)
Lemma ticks_reach_timeout questions n : ∀ st,
  questions ≠ [] → timer st = true → timeLeft st = Z.of_nat (S n) →
  ∃ st', TestScreen_run questions (st, None) (replicate (S n) Tick)
         = Some (st', Some (userAnswers st)) ∧ timeLeft st' = 0.
Proof.
  induction n as [|n IH]; intros st Hne Ht Hleft.
  - exists (countdownTick st). simpl. rewrite Ht.
    assert (timeLeft (countdownTick st) = 0) as H0.
    { unfold countdownTick. rewrite Hleft. done. }
    rewrite decide_False by (rewrite H0, Hleft; done).
    rewrite submitOnTimeout_nonempty by done.
    by rewrite countdownTick_answers.
  - assert (timeLeft (countdownTick st) = Z.of_nat (S n) ∧
            timer (countdownTick st) = true) as [Hleft' Ht'].
    { unfold countdownTick. rewrite Hleft.
      destruct (Z.leb_spec (Z.of_nat (S (S n))) 1); [lia|]. simpl.
      split; [lia|done]. }
    destruct (IH (countdownTick st) Hne Ht' Hleft') as (st' & Hrun & H0).
    exists st'. split; [|done].
    change (replicate (S (S n)) Tick) with (Tick :: replicate (S n) Tick).
    cbn [TestScreen_run snd fst TestScreen_step]. rewrite Ht.
    rewrite decide_False by lia.
    rewrite submitOnTimeout_running by lia.
    by rewrite Hrun, countdownTick_answers.
Qed.

(** C5: with a non-empty list of questions, whenever the time left is 0 the
    step that brought it there has handed the recorded answers to [onSubmit];
    for a limit [L > 0] this happens at the [L]-th tick, and [L] ticks in a
    row do get there; with an empty list a run without a click on Submit
    never calls [onSubmit]. *)
Theorem submit_on_timeout (questions : list Question) (L : Z) :
  (questions ≠ [] → ∀ evs st out,
     TestScreen_exec questions L evs = Some (st, out) →
     (timeLeft st = 0 → out = Some (userAnswers st)) ∧
     (0 ≤ L → ticks evs = L → out = Some (userAnswers st))) ∧
  (questions ≠ [] → 0 < L →
     ∃ st, TestScreen_exec questions L (replicate (Z.to_nat L) Tick)
           = Some (st, Some ∅) ∧ timeLeft st = 0) ∧
  (questions = [] → ∀ evs st out,
     ClickSubmit ∉ evs →
     TestScreen_exec questions L evs = Some (st, out) → out = None).
Proof.
  split; [|split].
  - intros Hne evs st out Hrun.
    pose proof (TestScreen_run_timeout _ _ _ _ Hne
                  (mount_timeout_inv questions L Hne) Hrun) as Hinv.
    unfold timeout_inv in Hinv. simpl in Hinv. split; [done|].
    intros HL Hticks. apply Hinv.
    destruct (mount_timer_inv questions L HL) as (Hi & Hstart).
    destruct (TestScreen_run_time _ _ _ _ _ Hi Hrun) as (_ & Hleft). lia.
  - intros Hne HL. unfold TestScreen_exec, TestScreen_mount.
    destruct (Z.to_nat L) as [|n] eqn:En; [lia|].
    set (st0 := countdownStart L _).
    assert (timer st0 = true ∧ timeLeft st0 = L ∧ userAnswers st0 = ∅)
      as (Ht & Hleft & Hans).
    { unfold st0, countdownStart. destruct (Z.leb_spec L 0); [lia|]. done. }
    rewrite submitOnTimeout_running by lia.
    destruct (ticks_reach_timeout questions n st0 Hne Ht) as (st' & Hrun & H0);
      [lia|].
    exists st'. by rewrite Hrun, Hans.
  - intros -> evs st out Hno Hrun.
    apply (TestScreen_run_empty evs (TestScreen_mount [] L) (st, out) Hno);
      [|done].
    apply submitOnTimeout_empty.
Qed.

(** ** The screens of the application *)

Lemma settle_one_count p q l l' :
  settle_one p l = Some l' →
  pending_count q l
  = ((if decide (p = q) then 1 else 0) + pending_count q l')%nat.
Proof.
  revert l'. induction l as [|x l IH]; intros l' H; simpl in H; [done|].
  destruct (decide (x = p)) as [->|Hne].
  - by simplify_eq.
  - destruct (settle_one p l) as [l''|]; [|done]. simplify_eq. simpl.
    rewrite (IH l'' eq_refl). lia.
Qed.

Lemma fetchCategories_settle_same r st :
  screen (fetchCategories_settle r st) = screen st ∧
  testResults (fetchCategories_settle r st) = testResults st ∧
  analysis (fetchCategories_settle r st) = analysis st.
Proof. by destruct r as [e|[e|d]|[e|d]]. Qed.

Lemma handleStartTest_settle_screen r st :
  match succeeded r with
  | Some _ =>
      screen (handleStartTest_settle r st) = test ∧
      testResults (handleStartTest_settle r st) = None ∧
      analysis (handleStartTest_settle r st) = None
  | None => screen (handleStartTest_settle r st) = selection
  end.
Proof. by destruct r as [e|[e|d]|[e|d]]. Qed.

(** Everything the main results need about one step. *)
Lemma App_step_facts w ev w' :
  App_inv w → App_step w ev = Some w' →
  App_inv w' ∧
  screen_edge (screen (app w)) (screen (app w')) = true ∧
  (screen (app w') = results → screen (app w) ≠ results →
     screen (app w) = loading ∧ submitting w = 1%nat) ∧
  (submitting w' = 1%nat → submitting w ≠ 1%nat →
     screen (app w) = test ∧ ∃ answers, ev = SubmitTest answers).
Proof.
  unfold App_inv, starting, submitting. intros Hinv Hstep.
  destruct ev; simpl in Hstep; app_step_cases Hstep; simplify_eq; simpl.
  - (* StartTest *)
    destruct Hinv as [-> ->]. split_and!; try done. by left.
  - (* SubmitTest *)
    destruct Hinv as (-> & -> & Hr & Ha). split_and!; try done; [by right|].
    intros _ _. eauto.
  - (* TestAgain *)
    destruct Hinv as [-> ->]. split_and!; done.
  - (* CategoriesSettle *)
    destruct (fetchCategories_settle_same r (app w)) as (Hs & Hr & Ha).
    rewrite Hs, Hr, Ha.
    rewrite (settle_one_count _ PendingStart _ _ Hp),
      (settle_one_count _ PendingSubmit _ _ Hp) in *.
    simpl in *. split_and!; try done. by destruct (screen (app w)).
  - (* StartSettle *)
    rewrite (settle_one_count _ PendingStart _ _ Hp),
      (settle_one_count _ PendingSubmit _ _ Hp) in *.
    simpl in *.
    assert (screen (app w) = loading ∧ pending_count PendingStart rest = 0%nat
            ∧ pending_count PendingSubmit rest = 0%nat) as (Hs & Hcs & Hcu).
    { destruct (screen (app w)); try lia.
      destruct Hinv; split_and!; try done; lia. }
    rewrite Hs, Hcs, Hcu.
    pose proof (handleStartTest_settle_screen r (app w)) as Hscr.
    destruct (succeeded r).
    + destruct Hscr as (-> & -> & ->). split_and!; done.
    + rewrite Hscr. split_and!; done.
  - (* SubmitSettle *)
    rewrite (settle_one_count _ PendingStart _ _ Hp),
      (settle_one_count _ PendingSubmit _ _ Hp) in *.
    simpl in *.
    assert (screen (app w) = loading ∧ pending_count PendingStart rest = 0%nat
            ∧ pending_count PendingSubmit rest = 0%nat) as (Hs & Hcs & Hcu).
    { destruct (screen (app w)); try lia.
      destruct Hinv; split_and!; try done; lia. }
    rewrite Hs, Hcs, Hcu. split_and!; done.
Qed.

Lemma App_mount_inv : App_inv App_mount.
Proof. by split. Qed.

Lemma App_trace_head evs w tr : App_trace w evs = Some tr → tr !! 0%nat = Some w.
Proof.
  destruct evs as [|ev evs]; simpl; [by intros [= <-]|].
  destruct (App_step w ev) as [w'|]; [|done].
  destruct (App_trace w' evs); [|done]. by intros [= <-].
Qed.

Lemma App_inv_submitting w :
  App_inv w →
  submitting w = 0%nat ∨ (submitting w = 1%nat ∧ screen (app w) = loading).
Proof.
  unfold App_inv. destruct (screen (app w)); tauto.
Qed.

(** Consecutive screens of a run are joined by an edge of the screen graph. *)
Lemma App_trace_edges evs : ∀ w tr i s s',
  App_inv w → App_trace w evs = Some tr →
  screen_at tr i = Some s → screen_at tr (S i) = Some s' →
  screen_edge s s' = true.
Proof.
  unfold screen_at.
  induction evs as [|ev evs IH]; intros w tr i s s' Hinv Htr Hi HSi;
    simpl in Htr.
  - simplify_eq; by destruct i.
  - destruct (App_step w ev) as [w'|] eqn:Hstep; [|done].
    destruct (App_trace w' evs) as [tr'|] eqn:Htr'; [|done]. simplify_eq.
    destruct (App_step_facts _ _ _ Hinv Hstep) as (Hinv' & Hedge & _).
    destruct i as [|i]; simpl in *.
    + rewrite (App_trace_head _ _ _ Htr') in HSi. simpl in HSi.
      by simplify_eq.
    + by eapply IH.
Qed.

(** Entering the results screen: the screen before is the loading screen,
    and either the submission was made earlier in this run, from the test
    screen, with the loading screen shown ever since, or it was already under
    way when the run started. *)
Lemma App_trace_results evs : ∀ w tr i,
  App_inv w → App_trace w evs = Some tr →
  screen_at tr (S i) = Some results → screen_at tr i ≠ Some results →
  screen_at tr i = Some loading ∧
  ((∃ j answers, (j < i)%nat ∧ screen_at tr j = Some test ∧
       evs !! j = Some (SubmitTest answers) ∧
       ∀ k, (j < k ≤ i)%nat → screen_at tr k = Some loading) ∨
   (submitting w = 1%nat ∧ ∀ k, (k ≤ i)%nat → screen_at tr k = Some loading)).
Proof.
  unfold screen_at.
  induction evs as [|ev evs IH]; intros w tr i Hinv Htr Hres Hnot;
    simpl in Htr.
  - by simplify_eq.
  - destruct (App_step w ev) as [w'|] eqn:Hstep; [|done].
    destruct (App_trace w' evs) as [tr'|] eqn:Htr'; [|done]. simplify_eq.
    destruct (App_step_facts _ _ _ Hinv Hstep) as (Hinv' & _ & Henter & Hsub).
    pose proof (App_trace_head _ _ _ Htr') as Hhead.
    destruct i as [|i]; simpl in *.
    + rewrite Hhead in Hres. simpl in Hres.
      destruct Henter as [Hl Hs]; [congruence..|].
      split; [congruence|]. right. split; [done|].
      intros k Hk. assert (k = 0%nat) as -> by lia. simpl. congruence.
    + destruct (IH w' tr' i Hinv' Htr' Hres Hnot) as (Hload & Hcase).
      split; [done|].
      destruct Hcase as [(j & answers & Hj & Htest & Hev & Hbetween)|[Hs Hall]].
      * left. exists (S j), answers. split; [lia|]. split; [done|].
        split; [done|]. intros k Hk. destruct k as [|k]; [lia|].
        simpl. apply Hbetween. lia.
      * destruct (App_inv_submitting w Hinv) as [H0|[H1 Hl]].
        -- left. destruct Hsub as (Htest & answers & ->); [done|lia|].
           exists 0%nat, answers. split; [lia|]. simpl.
           split; [congruence|]. split; [done|].
           intros k Hk. destruct k as [|k]; [lia|]. simpl. apply Hall. lia.
        -- right. split; [done|]. intros k Hk. destruct k as [|k]; simpl.
           ++ congruence.
           ++ apply Hall. lia.
Qed.

(** C1: there are exactly four screens; the application starts on
    'selection'; consecutive screens of a run follow the screen graph
    (selection → loading → test → loading → results → selection, with
    loading → selection when the test cannot start), in which no edge leads
    from 'selection' to 'results'; and whenever 'results' is entered, the
    screen before is 'loading', shown ever since an [onSubmit] made earlier
    from the 'test' screen. *)
Theorem results_only_after_submission :
  (∀ s : Screen, s = selection ∨ s = test ∨ s = loading ∨ s = results) ∧
  screen (app App_mount) = selection ∧
  ∀ evs tr, App_trace App_mount evs = Some tr →
    (∀ i s s', screen_at tr i = Some s → screen_at tr (S i) = Some s' →
       screen_edge s s' = true ∧ ¬ (s = selection ∧ s' = results)) ∧
    (∀ i, screen_at tr (S i) = Some results →
       screen_at tr i ≠ Some results →
       screen_at tr i = Some loading ∧
       ∃ j answers, (j < i)%nat ∧ screen_at tr j = Some test ∧
         evs !! j = Some (SubmitTest answers) ∧
         ∀ k, (j < k ≤ i)%nat → screen_at tr k = Some loading).
Proof.
  split; [intros []; tauto|]. split; [done|].
  intros evs tr Htr. split.
  - intros i s s' Hi HSi.
    pose proof (App_trace_edges _ _ _ _ _ _ App_mount_inv Htr Hi HSi) as Hedge.
    split; [done|]. intros [-> ->]. done.
  - intros i Hres Hnot.
    destruct (App_trace_results _ _ _ _ App_mount_inv Htr Hres Hnot)
      as (Hload & [Hcase|[Hsub _]]); [done|done].
Qed.

(** ** Requests *)

Lemma App_step_sent w ev w' :
  App_step w ev = Some w' →
  ∃ more, sent w' = sent w ++ more ∧ Forall is_post more.
Proof.
  intros Hstep.
  destruct ev; simpl in Hstep; app_step_cases Hstep; simplify_eq; simpl;
    try (exists []; split; [by rewrite app_nil_r|constructor]).
  - eexists [_]. split; [done|]. repeat constructor.
  - eexists [_]. split; [done|]. repeat constructor.
Qed.

Lemma App_run_sent evs : ∀ w w',
  App_run w evs = Some w' →
  ∃ more, sent w' = sent w ++ more ∧ Forall is_post more.
Proof.
  induction evs as [|ev evs IH]; intros w w' Hrun; simpl in Hrun.
  - simplify_eq. exists []. split; [by rewrite app_nil_r|constructor].
  - destruct (App_step w ev) as [w1|] eqn:Hstep; [|done].
    destruct (App_step_sent _ _ _ Hstep) as (m1 & E1 & H1).
    destruct (IH _ _ Hrun) as (m2 & E2 & H2).
    exists (m1 ++ m2). split; [by rewrite E2, E1, app_assoc|].
    by apply Forall_app.
Qed.

Lemma list_to_set_disj_size {A} `{Countable A} (l : list A) :
  size (list_to_set_disj l : gmultiset A) = length l.
Proof.
  induction l as [|x l IH]; [done|].
  rewrite list_to_set_disj_cons, gmultiset_size_disj_union,
    gmultiset_size_singleton, IH. done.
Qed.

(** The body of a submission holds exactly the answers: one element for each
    entry of the object, with the parsed key and the option. *)
Lemma backendAnswers_spec (answers : UserAnswer) :
  size (backendAnswers answers) = size answers ∧
  ∀ e, e ∈ backendAnswers answers ↔
       ∃ k v, answers !! k = Some v ∧ e = (parseInt k, v).
Proof.
  unfold backendAnswers. split.
  - by rewrite list_to_set_disj_size, length_fmap, length_map_to_list.
  - intros e. rewrite elem_of_list_to_set_disj, list_elem_of_fmap. split.
    + intros ([k v] & -> & Hin). apply elem_of_map_to_list in Hin. eauto.
    + intros (k & v & Hkv & ->). exists (k, v).
      split; [done|]. by apply elem_of_map_to_list.
Qed.

Lemma App_step_request w ev w' :
  App_step w ev = Some w' →
  sent w' = sent w ++ option_list (request_of ev).
Proof.
  intros Hstep.
  destruct ev; simpl in Hstep; app_step_cases Hstep; simplify_eq; simpl;
    by rewrite ?app_nil_r.
Qed.

Lemma App_run_requests evs : ∀ w w',
  App_run w evs = Some w' → sent w' = sent w ++ omap request_of evs.
Proof.
  induction evs as [|ev evs IH]; intros w w' Hrun; simpl in Hrun.
  - simplify_eq. by rewrite app_nil_r.
  - destruct (App_step w ev) as [w1|] eqn:Hstep; [|done].
    rewrite (IH _ _ Hrun), (App_step_request _ _ _ Hstep), <- app_assoc.
    f_equal. simpl. by destruct (request_of ev).
Qed.

(** C6: mounting the application sends a GET to /categories; a call of
    [handleStartTest] sends a POST to /start-test with the ids of the
    selected categories; a call of [handleSubmitTest] sends a POST to
    /submit-test whose body holds exactly the answers; and in every run the
    requests sent are that first GET followed by one such POST for each
    start and each submission, in their order, and nothing else: no other
    path is requested. *)
Theorem client_requests :
  sent App_mount
  = [ {| url := "https://profiler-backend-5plw.onrender.com/categories";
         method := GET; headers := []; body := NoBody |} ] ∧
  (∀ categories st,
     (handleStartTest_call categories st).2
     = {| url := "https://profiler-backend-5plw.onrender.com/start-test";
          method := POST;
          headers := [("Content-Type", "application/json")];
          body := StartBody (cat_id <$> categories) |}) ∧
  (∀ answers st,
     ∃ sentAnswers,
       (handleSubmitTest_call answers st).2
       = {| url := "https://profiler-backend-5plw.onrender.com/submit-test";
            method := POST;
            headers := [("Content-Type", "application/json")];
            body := SubmitBody sentAnswers |} ∧
       size sentAnswers = size answers ∧
       ∀ e, e ∈ sentAnswers ↔
            ∃ k v, answers !! k = Some v ∧ e = (parseInt k, v)) ∧
  (∀ w ev w', App_step w ev = Some w' →
     match ev with
     | StartTest categories =>
         sent w' = sent w ++ [(handleStartTest_call categories (app w)).2]
     | SubmitTest answers =>
         sent w' = sent w ++ [(handleSubmitTest_call answers (app w)).2]
     | _ => sent w' = sent w
     end) ∧
  (∀ evs w, App_run App_mount evs = Some w →
     sent w = categories_request :: omap request_of evs ∧
     ∃ rest, sent w = categories_request :: rest ∧
       Forall (λ rq, method rq = POST ∧
                 (url rq = "https://profiler-backend-5plw.onrender.com/start-test" ∨
                  url rq = "https://profiler-backend-5plw.onrender.com/submit-test"))
              rest).
Proof.
  split; [done|]. split; [done|]. split; [|split].
  - intros answers st. exists (backendAnswers answers).
    split; [done|]. apply backendAnswers_spec.
  - intros w ev w' Hstep. rewrite (App_step_request _ _ _ Hstep).
    destruct ev; simpl; by rewrite ?app_nil_r.
  - intros evs w Hrun. split.
    + by rewrite (App_run_requests _ _ _ Hrun).
    + destruct (App_run_sent _ _ _ Hrun) as (more & -> & Hmore).
      exists more. split; [done|].
      eapply Forall_impl; [exact Hmore|].
      intros rq [Hapi Hpost]. split; [done|].
      destruct Hapi; [done|by left|by right].
Qed.

(** ** Submitting the test *)

Lemma App_run_inv evs : ∀ w w',
  App_inv w → App_run w evs = Some w' → App_inv w'.
Proof.
  induction evs as [|ev evs IH]; intros w w' Hinv Hrun; simpl in Hrun.
  - by simplify_eq.
  - destruct (App_step w ev) as [w1|] eqn:Hstep; [|done].
    eapply IH; [|done]. by eapply App_step_facts.
Qed.

Lemma handleSubmitTest_failure answers r st :
  succeeded r = None →
  let st' := handleSubmitTest answers r st in
  testResults st' = testResults st ∧ analysis st' = analysis st ∧
  is_Some (error st') ∧ quizQuestions st' = quizQuestions st ∧
  allCategories st' = allCategories st ∧ timeLimit st' = timeLimit st.
Proof. destruct r as [e|[e|d]|[e|d]]; try done; intros _; by split_and!. Qed.

Lemma submit_then_settle w answers w1 r w2 :
  App_step w (SubmitTest answers) = Some w1 →
  App_step w1 (SubmitSettle r) = Some w2 →
  screen (app w) = test ∧ app w2 = handleSubmitTest answers r (app w).
Proof.
  intros Hsub Hsettle. simpl in Hsub. app_step_cases Hsub. simplify_eq.
  simpl in Hsettle. by simplify_eq.
Qed.

(** C8: when [handleSubmitTest] is done the screen is 'results', whether
    the request succeeded or failed.  On failure the test results and the
    analysis are the ones held before, an error message is set and nothing
    else changes; on success they are those of the response.  In a run of
    the application a submission always finds both null, so after a failed
    one they are still null (and the results screen shows the spinner). *)
Theorem handleSubmitTest_always_results :
  (∀ answers r st,
     let st' := handleSubmitTest answers r st in
     screen st' = results ∧
     (succeeded r = None →
        testResults st' = testResults st ∧ analysis st' = analysis st ∧
        is_Some (error st') ∧ quizQuestions st' = quizQuestions st ∧
        allCategories st' = allCategories st ∧ timeLimit st' = timeLimit st) ∧
     (∀ data, succeeded r = Some data →
        testResults st' = Some (resp_results data) ∧
        analysis st' = Some (resp_analysis data) ∧ error st' = None)) ∧
  (∀ evs w answers w1 r w2,
     App_run App_mount evs = Some w →
     App_step w (SubmitTest answers) = Some w1 →
     App_step w1 (SubmitSettle r) = Some w2 →
     app w2 = handleSubmitTest answers r (app w) ∧
     screen (app w2) = results ∧
     (succeeded r = None →
        testResults (app w2) = None ∧ analysis (app w2) = None ∧
        renderScreen (app w2) = LoadingScreen)).
Proof.
  split.
  - intros answers r st st'. split; [done|]. split.
    + apply handleSubmitTest_failure.
    + intros data Hok. destruct r as [e|[e|d]|[e|d]]; try done.
      simpl in Hok. by simplify_eq.
  - intros evs w answers w1 r w2 Hrun Hsub Hsettle.
    pose proof (App_run_inv _ _ _ App_mount_inv Hrun) as Hinv.
    destruct (submit_then_settle _ _ _ _ _ Hsub Hsettle) as [Hs ->].
    split; [done|]. split; [done|]. intros Hfail.
    unfold App_inv in Hinv. rewrite Hs in Hinv.
    destruct Hinv as (_ & _ & Hr & Ha).
    destruct (handleSubmitTest_failure answers r (app w) Hfail)
      as (Hr' & Ha' & _).
    rewrite Hr in Hr'. rewrite Ha in Ha'.
    split; [done|]. split; [done|].
    unfold renderScreen. by rewrite Hr'.
Qed.

(** ** The results shown *)

Lemma sum_list_perm (l l' : list Z) : l ≡ₚ l' → sum_list l = sum_list l'.
Proof. induction 1; simpl in *; lia. Qed.

Lemma breakdown_sums localeCompare r a e :
  sum_list (bar_correct <$> breakdown (ResultsScreen localeCompare r a e))
  = sumCorrect r ∧
  sum_list (bar_total <$> breakdown (ResultsScreen localeCompare r a e))
  = sumTotal r.
Proof.
  unfold sumCorrect, sumTotal, ResultsScreen, sortedEntries. simpl.
  pose proof (array_sort_perm (compareKeys localeCompare)
                (map_to_list (categoryResults r)) ()) as Hp.
  rewrite <- !list_fmap_compose.
  split; apply sum_list_perm; by rewrite Hp.
Qed.

(** The results held by the application came with a successful response to
    a submission. *)
Lemma App_run_testResults evs : ∀ w w' r,
  App_run w evs = Some w' → testResults (app w') = Some r →
  testResults (app w) = Some r ∨
  ∃ data, SubmitSettle (Ok (JsonValue data)) ∈ evs ∧ resp_results data = r.
Proof.
  induction evs as [|ev evs IH]; intros w w' r Hrun Hr; simpl in Hrun.
  - simplify_eq. by left.
  - destruct (App_step w ev) as [w1|] eqn:Hstep; [|done].
    destruct (IH _ _ _ Hrun Hr) as [Hr1|(data & Hin & Hd)].
    + destruct ev; simpl in Hstep; app_step_cases Hstep; simplify_eq;
        simpl in Hr1; try (by left); try done.
      * left. by rewrite (proj1 (proj2 (fetchCategories_settle_same _ _))) in Hr1.
      * destruct r0 as [e|[e|d]|[e|d]]; simpl in Hr1; try done; by left.
      * destruct r0 as [e|[e|d]|[e|d]]; try (by left).
        right. exists d. split; [left|]. simpl in Hr1. congruence.
    + right. exists data. split; [by right|done].
Qed.

Lemma bars_perm localeCompare r a e :
  breakdown (ResultsScreen localeCompare r a e)
  ≡ₚ (λ e, ResultBar e.1 (correct e.2) (total e.2))
       <$> map_to_list (categoryResults r).
Proof.
  unfold ResultsScreen, sortedEntries. simpl.
  by rewrite (array_sort_perm (compareKeys localeCompare)).
Qed.

Lemma bars_characterised localeCompare r a e :
  let bars := breakdown (ResultsScreen localeCompare r a e) in
  length bars = size (categoryResults r) ∧
  NoDup (label <$> bars) ∧
  ∀ b, b ∈ bars ↔
       ∃ cr, categoryResults r !! label b = Some cr ∧
             b = ResultBar (label b) (correct cr) (total cr).
Proof.
  intros bars. subst bars. pose proof (bars_perm localeCompare r a e) as Hp.
  split; [|split].
  - by rewrite Hp, length_fmap, length_map_to_list.
  - rewrite Hp, <- list_fmap_compose.
    apply (NoDup_fst_map_to_list (categoryResults r)).
  - intros b. rewrite Hp, list_elem_of_fmap. split.
    + intros ([k cr] & -> & Hin). apply elem_of_map_to_list in Hin.
      exists cr. by simpl.
    + intros (cr & Hcr & Hb). exists (label b, cr).
      split; [done|]. by apply elem_of_map_to_list.
Qed.

(** The client itself does not check the totals: a reply that no scoring
    produced, whose totals do not add up, is shown as it is. *)
Lemma results_totals_not_checked :
  ¬ (∀ evs w r,
       App_run App_mount evs = Some w →
       renderScreen (app w) = ResultsScreenOf r →
       sumCorrect r = totalCorrect r ∧ sumTotal r = totalQuestions r).
Proof.
  intros H.
  edestruct (H (sample_session (Ok (JsonValue sample_submit)))) as [Hc _].
  - vm_compute. reflexivity.
  - vm_compute. reflexivity.
  - vm_compute in Hc. discriminate Hc.
Qed.

(** *** The tally of the server *)

Lemma field_sum_insert_fresh (f : CategoryResult → Z)
    (m : gmap string CategoryResult) k v :
  m !! k = None → field_sum f (<[k := v]> m) = f v + field_sum f m.
Proof.
  intros Hk. unfold field_sum.
  rewrite (sum_list_perm _ _
             (fmap_Permutation _ _ _ (map_to_list_insert m k v Hk))).
  done.
Qed.

Lemma field_sum_insert (f : CategoryResult → Z)
    (m : gmap string CategoryResult) k v :
  field_sum f (<[k := v]> m)
  = f v + field_sum f m - from_option f 0 (m !! k).
Proof.
  destruct (m !! k) as [old|] eqn:Hk; simpl.
  - rewrite <- (insert_delete_eq m k v).
    rewrite field_sum_insert_fresh by apply lookup_delete_eq.
    rewrite <- (insert_delete_id m k old Hk) at 2.
    rewrite field_sum_insert_fresh by apply lookup_delete_eq. lia.
  - rewrite field_sum_insert_fresh by done. lia.
Qed.

Lemma tally_one_sums acc g :
  field_sum correct (tally_one acc g)
  = field_sum correct acc + (if g.2 then 1 else 0) ∧
  field_sum total (tally_one acc g) = field_sum total acc + 1.
Proof.
  unfold tally_one. split.
  - rewrite field_sum_insert. destruct (acc !! g.1); simpl; lia.
  - rewrite field_sum_insert. destruct (acc !! g.1); simpl; lia.
Qed.

Lemma tally_sums graded : ∀ acc,
  field_sum correct (foldl tally_one acc graded)
  = field_sum correct acc
    + Z.of_nat (length (filter (λ g, g.2 = true) graded)) ∧
  field_sum total (foldl tally_one acc graded)
  = field_sum total acc + Z.of_nat (length graded).
Proof.
  induction graded as [|g graded IH]; intros acc; simpl.
  - split; lia.
  - destruct (IH (tally_one acc g)) as [-> ->].
    destruct (tally_one_sums acc g) as [-> ->].
    rewrite filter_cons. destruct g as [c []]; simpl; split; lia.
Qed.

Lemma score_sums key answers :
  sumCorrect (score key answers) = totalCorrect (score key answers) ∧
  sumTotal (score key answers) = totalQuestions (score key answers).
Proof.
  unfold sumCorrect, sumTotal, score, tally. simpl.
  destruct (tally_sums (omap (grade key) answers) ∅) as [Hc Ht].
  unfold field_sum in Hc, Ht. rewrite Hc, Ht, map_to_list_empty.
  simpl. split; lia.
Qed.

(** C3: the results that the server's scoring produces add up: the
    [correct] fields of [categoryResults] sum to [totalCorrect] and the
    [total] fields to [totalQuestions].  A TestResults value shown on the
    results screen is the [results] of a successful reply to a submission,
    so when the replies come from that scoring every value shown adds up;
    and the screen shows it as received, with its two totals and exactly one
    bar for each entry of [categoryResults] carrying that entry's counts,
    so that the bars add up to the totals shown. *)
Theorem shown_results_add_up (localeCompare : string → string → Z) :
  (∀ key answers,
     sumCorrect (score key answers) = totalCorrect (score key answers) ∧
     sumTotal (score key answers) = totalQuestions (score key answers)) ∧
  ∀ evs w r,
    App_run App_mount evs = Some w →
    scored_by_server evs →
    renderScreen (app w) = ResultsScreenOf r →
    (∃ data, SubmitSettle (Ok (JsonValue data)) ∈ evs ∧
             resp_results data = r) ∧
    sumCorrect r = totalCorrect r ∧ sumTotal r = totalQuestions r ∧
    let view :=
      ResultsScreen localeCompare r (analysis (app w)) (error (app w)) in
    overallCorrect view = totalCorrect r ∧
    overallTotal view = totalQuestions r ∧
    length (breakdown view) = size (categoryResults r) ∧
    NoDup (label <$> breakdown view) ∧
    (∀ b, b ∈ breakdown view ↔
          ∃ cr, categoryResults r !! label b = Some cr ∧
                b = ResultBar (label b) (correct cr) (total cr)) ∧
    sum_list (bar_correct <$> breakdown view) = overallCorrect view ∧
    sum_list (bar_total <$> breakdown view) = overallTotal view.
Proof.
  split; [apply score_sums|].
  intros evs w r Hrun Hserver Hshown.
  assert (testResults (app w) = Some r) as Hr.
  { unfold renderScreen in Hshown.
    destruct (screen (app w)); try done.
    destruct (testResults (app w)); by simplify_eq. }
  destruct (App_run_testResults _ _ _ _ Hrun Hr) as [?|(data & Hin & Hd)];
    [done|].
  destruct (Hserver data Hin) as (key & answers & Hscore).
  assert (sumCorrect r = totalCorrect r ∧ sumTotal r = totalQuestions r)
    as [Hc Ht].
  { rewrite <- Hd, Hscore. apply score_sums. }
  split; [eauto|]. split; [done|]. split; [done|]. intros view.
  destruct (bars_characterised localeCompare r (analysis (app w))
              (error (app w))) as (Hlen & Hnd & Hbars).
  destruct (breakdown_sums localeCompare r (analysis (app w)) (error (app w)))
    as [Hbc Hbt].
  fold view in Hlen, Hnd, Hbars, Hbc, Hbt.
  split; [done|]. split; [done|]. split; [done|]. split; [done|].
  split; [done|]. split; [by rewrite Hbc|by rewrite Hbt].
Qed.

Lemma shown_results_add_up_witness :
  ∃ w r,
    App_run App_mount (sample_session (Ok (JsonValue scored_submit))) = Some w ∧
    renderScreen (app w) = ResultsScreenOf r ∧
    totalCorrect r = 2 ∧ totalQuestions r = 3 ∧
    sumCorrect r = totalCorrect r ∧ sumTotal r = totalQuestions r.
Proof.
  eexists _, _. split; [vm_compute; reflexivity|].
  split; [vm_compute; reflexivity|].
  split; [vm_compute; reflexivity|]. split; [vm_compute; reflexivity|].
  refine (let H := proj2 (shown_results_add_up codeCompare)
            (sample_session (Ok (JsonValue scored_submit))) _ _
            eq_refl _ eq_refl in
          conj (proj1 (proj2 H)) (proj1 (proj2 (proj2 H)))).
  intros data Hin. exists sample_key, [(Some 7, 2); (Some 8, 1); (Some 9, 1)].
  repeat (apply elem_of_cons in Hin as [Hin|Hin]; [by simplify_eq|]).
  by apply not_elem_of_nil in Hin.
Defined.

(** ** The properties on the sample session *)

Lemma results_only_after_submission_witness :
  ∃ tr, App_trace App_mount (sample_session (Rejects NonError)) = Some tr ∧
    screen_at tr 5 = Some results ∧
    screen_at tr 4 = Some loading ∧
    ∃ j answers, (j < 4)%nat ∧ screen_at tr j = Some test ∧
      sample_session (Rejects NonError) !! j = Some (SubmitTest answers) ∧
      ∀ k, (j < k ≤ 4)%nat → screen_at tr k = Some loading.
Proof.
  eexists. split; [vm_compute; reflexivity|].
  split; [vm_compute; reflexivity|].
  apply (proj2 (proj2 (proj2 results_only_after_submission)
                  (sample_session (Rejects NonError)) _ eq_refl)).
  - vm_compute. reflexivity.
  - vm_compute. discriminate.
Defined.

Lemma timeLeft_never_negative_witness :
  ∃ st out,
    TestScreen_exec [sample_question] 2 [Tick; ClickOption 1; Tick]
    = Some (st, out) ∧
    timeLeft st = 2 - ticks [Tick; ClickOption 1; Tick] ∧ 0 ≤ timeLeft st.
Proof.
  eexists _, _. split; [vm_compute; reflexivity|].
  pose proof (proj2 (proj2 (timeLeft_never_negative [sample_question] 2
                              ltac:(lia)))
                [Tick; ClickOption 1; Tick] _ _ eq_refl) as (H1 & H2 & _).
  split; [exact H1|exact H2].
Defined.

Lemma submitted_answers_valid_witness :
  ∃ st answers,
    TestScreen_exec [sample_question] 2 [ClickOption 1; Tick; Tick]
    = Some (st, Some answers) ∧
    answers = userAnswers st ∧ answers_valid [sample_question] answers.
Proof.
  eexists _, _. split; [vm_compute; reflexivity|].
  exact (proj2 (submitted_answers_valid [sample_question] 2)
           [ClickOption 1; Tick; Tick] _ _ eq_refl).
Defined.

Lemma submit_on_timeout_witness :
  ∃ st out,
    TestScreen_exec [sample_question] 2 [ClickOption 1; Tick; Tick]
    = Some (st, out) ∧
    out = Some (userAnswers st).
Proof.
  eexists _, _. split; [vm_compute; reflexivity|].
  refine (proj1 (proj1 (submit_on_timeout [sample_question] 2) _
                   [ClickOption 1; Tick; Tick] _ _ eq_refl) _).
  - discriminate.
  - vm_compute. reflexivity.
Defined.

Lemma client_requests_witness :
  ∃ w,
    App_run App_mount (sample_session (Rejects NonError)) = Some w ∧
    sent w
    = [ {| url := "https://profiler-backend-5plw.onrender.com/categories";
           method := GET; headers := []; body := NoBody |};
        {| url := "https://profiler-backend-5plw.onrender.com/start-test";
           method := POST;
           headers := [("Content-Type", "application/json")];
           body := StartBody ["memory"] |};
        {| url := "https://profiler-backend-5plw.onrender.com/submit-test";
           method := POST;
           headers := [("Content-Type", "application/json")];
           body := SubmitBody {[+ (Some 7, 1) +]} |} ].
Proof.
  eexists. split; [vm_compute; reflexivity|].
  etransitivity.
  - exact (proj1 (proj2 (proj2 (proj2 (proj2 client_requests)))
                    (sample_session (Rejects NonError)) _ eq_refl)).
  - vm_compute. reflexivity.
Defined.

Lemma handleSubmitTest_always_results_witness :
  ∃ w w1 w2,
    App_run App_mount (take 3 (sample_session (Rejects NonError))) = Some w ∧
    App_step w (SubmitTest {[ "7" := 1 ]}) = Some w1 ∧
    App_step w1 (SubmitSettle (Rejects NonError)) = Some w2 ∧
    screen (app w2) = results ∧
    testResults (app w2) = None ∧ analysis (app w2) = None ∧
    renderScreen (app w2) = LoadingScreen.
Proof.
  eexists _, _, _.
  split; [vm_compute; reflexivity|]. split; [vm_compute; reflexivity|].
  split; [vm_compute; reflexivity|].
  pose proof (proj2 handleSubmitTest_always_results
    (take 3 (sample_session (Rejects NonError))) _ {[ "7" := 1 ]} _
    (Rejects NonError) _ eq_refl eq_refl eq_refl) as (_ & Hs & Hfail).
  split; [exact Hs|]. exact (Hfail eq_refl).
Defined.

(** * Part III: further properties *)

(** ** Selecting categories and starting *)

(** X1: A click on a card changes the number on the Start button by exactly one:
    up when the category was not selected, down when it was. *)
Theorem handleSelect_size (sel : gset string) (c : string) :
  size (handleSelect sel c)
  = if decide (c ∈ sel) then Nat.pred (size sel) else Datatypes.S (size sel).
Proof.
  unfold handleSelect. cbv zeta. case_decide as Hc.
  - rewrite size_difference by (by apply singleton_subseteq_l).
    rewrite size_singleton. lia.
  - rewrite size_union by (by apply disjoint_singleton_r).
    rewrite size_singleton. lia.
Qed.

Lemma clicks_on_cons id a ids :
  clicks_on id (a :: ids)
  = ((if decide (a = id) then 1 else 0) + clicks_on id ids)%nat.
Proof.
  unfold clicks_on. rewrite filter_cons. by destruct (decide (a = id)).
Qed.

Lemma clickCards_parity categories ids : ∀ sel sel',
  clickCards categories sel ids = Some sel' →
  ∀ id, id ∈ sel' ↔
        xorb (bool_decide (id ∈ sel)) (Nat.odd (clicks_on id ids)) = true.
Proof.
  induction ids as [|a ids IH]; intros sel sel' Hrun id; simpl in Hrun.
  - simplify_eq. unfold clicks_on. simpl. rewrite xorb_false_r.
    by rewrite bool_decide_eq_true.
  - unfold clickCard in Hrun. case_decide; [|done].
    rewrite (IH _ _ Hrun id), clicks_on_cons.
    assert (bool_decide (id ∈ handleSelect sel a)
            = xorb (bool_decide (id ∈ sel)) (bool_decide (a = id))) as ->.
    { apply eq_true_iff_eq. rewrite bool_decide_eq_true, handleSelect_elem_of.
      destruct (decide (a = id)) as [->|Hne].
      - rewrite (bool_decide_eq_true_2 (id = id)) by done.
        destruct (decide (id ∈ sel)).
        + rewrite bool_decide_eq_true_2 by done. simpl. split; [tauto|done].
        + rewrite bool_decide_eq_false_2 by done. simpl. tauto.
      - rewrite (bool_decide_eq_false_2 (a = id)) by done.
        rewrite xorb_false_r, bool_decide_eq_true.
        split; [intros [[-> _]|[_ ?]]; done|intros; right; split; congruence]. }
    destruct (decide (a = id)) as [->|Hne].
    + rewrite (bool_decide_eq_true_2 (id = id)) by done.
      change (1 + clicks_on id ids)%nat with (Datatypes.S (clicks_on id ids)).
      rewrite Nat.odd_succ, <- Nat.negb_odd.
      by destruct (bool_decide (id ∈ sel)), (Nat.odd (clicks_on id ids)).
    + rewrite (bool_decide_eq_false_2 (a = id)) by done.
      by rewrite xorb_false_r.
Qed.

Lemma clickCards_subseteq categories ids : ∀ sel sel',
  clickCards categories sel ids = Some sel' →
  (∀ id, id ∈ sel → id ∈ cat_id <$> categories) →
  ∀ id, id ∈ sel' → id ∈ cat_id <$> categories.
Proof.
  induction ids as [|a ids IH]; intros sel sel' Hrun Hsel; simpl in Hrun.
  - by simplify_eq.
  - unfold clickCard in Hrun. case_decide as Ha; [|done].
    eapply IH; [done|]. intros id. rewrite handleSelect_elem_of.
    intros [[-> _]|[_ ?]]; auto.
Qed.

(** X2: After any series of clicks on cards, a category is selected exactly when
    its card was clicked an odd number of times (so the order of the clicks
    does not matter), and only ids of displayed categories are selected. *)
Theorem selection_by_parity (categories : list Category) (ids : list string)
    (sel : gset string) :
  clickCards categories ∅ ids = Some sel →
  (∀ id, id ∈ sel ↔ Nat.odd (clicks_on id ids) = true) ∧
  (∀ id, id ∈ sel → id ∈ cat_id <$> categories).
Proof.
  intros Hrun. split.
  - intros id. rewrite (clickCards_parity _ _ _ _ Hrun id).
    rewrite bool_decide_eq_false_2 by set_solver. done.
  - eapply clickCards_subseteq; [done|]. set_solver.
Qed.

Lemma selection_by_parity_witness :
  ∃ sel, clickCards [sample_category] ∅ ["memory"; "memory"; "memory"] = Some sel ∧
    ("memory" ∈ sel ↔ Nat.odd (clicks_on "memory" ["memory"; "memory"; "memory"]) = true).
Proof.
  eexists. split; [vm_compute; reflexivity|].
  apply (proj1 (selection_by_parity [sample_category]
                  ["memory"; "memory"; "memory"] _ eq_refl)).
Defined.

Lemma handleStart_elem_of categories sel c :
  c ∈ handleStart categories sel ↔ c ∈ categories ∧ cat_id c ∈ sel.
Proof. unfold handleStart. rewrite list_elem_of_filter. tauto. Qed.

(** X3: The Start button never hands an empty list to [onStartTest]: it is
    disabled exactly when nothing is selected, and after clicks on cards what
    it hands over is the non-empty list of the displayed categories that are
    selected, in display order. *)
Theorem start_never_empty (categories : list Category) (ids : list string)
    (sel : gset string) :
  clickCards categories ∅ ids = Some sel →
  (clickStart categories sel = None ↔ sel = ∅) ∧
  ∀ cats, clickStart categories sel = Some cats →
    cats ≠ [] ∧ cats `sublist_of` categories ∧
    ∀ c, c ∈ cats ↔ c ∈ categories ∧ cat_id c ∈ sel.
Proof.
  intros Hrun. unfold clickStart, startDisabled. split.
  - case_bool_decide as Hsz; [|split; [done|]].
    + split; [|done]. intros _. by apply size_empty_inv, leibniz_equiv in Hsz.
    + intros ->. by rewrite size_empty in Hsz.
  - intros cats Hstart. case_bool_decide as Hsz; [done|]. simplify_eq.
    split; [|split].
    + destruct (size_pos_elem_of sel) as [id Hid]; [lia|].
      pose proof (clickCards_subseteq _ _ _ _ Hrun
                    ltac:(set_solver) id Hid) as Hin.
      apply list_elem_of_fmap in Hin as (c & -> & Hc).
      intros Hnil.
      assert (c ∈ handleStart categories sel) as Hc'
        by (by apply handleStart_elem_of).
      rewrite Hnil in Hc'. by apply not_elem_of_nil in Hc'.
    + apply sublist_filter.
    + apply handleStart_elem_of.
Qed.

Lemma start_never_empty_witness :
  ∃ sel cats,
    clickCards [sample_category] ∅ ["memory"] = Some sel ∧
    clickStart [sample_category] sel = Some cats ∧ cats ≠ [].
Proof.
  eexists _, _. split; [vm_compute; reflexivity|].
  split; [vm_compute; reflexivity|].
  apply (proj2 (start_never_empty [sample_category] ["memory"] _ eq_refl)
           _ eq_refl).
Defined.

Lemma filter_ext_elem_of {A} (P Q : A → Prop) `{!∀ x, Decision (P x)}
    `{!∀ x, Decision (Q x)} (l : list A) :
  (∀ x, x ∈ l → P x ↔ Q x) → filter P l = filter Q l.
Proof.
  induction l as [|x l IH]; intros Hext; [done|].
  rewrite !filter_cons.
  rewrite IH by (intros y Hy; apply Hext; by right).
  destruct (decide (P x)) as [HP|HP], (decide (Q x)) as [HQ|HQ]; try done.
  - destruct HQ. apply Hext; [by left|done].
  - destruct HP. apply Hext; [by left|done].
Qed.

Lemma handleStart_length categories : ∀ sel : gset string,
  NoDup (cat_id <$> categories) →
  (∀ id, id ∈ sel → id ∈ cat_id <$> categories) →
  length (handleStart categories sel) = size sel.
Proof.
  unfold handleStart.
  induction categories as [|c categories IH]; intros sel Hnd Hsub.
  - simpl. assert (sel = ∅) as ->; [|by rewrite size_empty].
    apply set_eq. intros id. split; [|set_solver].
    intros Hid. apply Hsub in Hid. by apply not_elem_of_nil in Hid.
  - rewrite fmap_cons in Hnd. apply NoDup_cons in Hnd as [Hc Hnd].
    rewrite filter_cons. destruct (decide (cat_id c ∈ sel)) as [Hin|Hnin].
    + simpl.
      assert (filter (λ cat, cat_id cat ∈ sel) categories
              = filter (λ cat, cat_id cat ∈ sel ∖ {[cat_id c]}) categories) as ->.
      { apply filter_ext_elem_of. intros c' Hc'. rewrite elem_of_difference.
        rewrite not_elem_of_singleton. split; [|tauto]. intros ?. split; [done|].
        intros Heq. apply Hc. rewrite <- Heq. by apply list_elem_of_fmap_2. }
      rewrite (IH (sel ∖ {[cat_id c]})); [|done|].
      * rewrite size_difference by (by apply singleton_subseteq_l).
        rewrite size_singleton.
        assert (size sel ≠ 0%nat); [|lia].
        intros Hz. apply size_empty_inv in Hz. set_solver.
      * intros id. rewrite elem_of_difference, not_elem_of_singleton.
        intros [Hid Hne]. apply Hsub in Hid. rewrite fmap_cons in Hid.
        apply elem_of_cons in Hid as [?|?]; done.
    + apply IH; [done|]. intros id Hid. pose proof (Hsub id Hid) as Hid'.
      rewrite fmap_cons in Hid'. apply elem_of_cons in Hid' as [->|?]; done.
Qed.

(** X4: When the displayed categories have distinct ids, the number shown on the
    Start button ([selected.size]) is the number of categories handed to
    [onStartTest]. *)
Theorem start_count (categories : list Category) (ids : list string)
    (sel : gset string) :
  NoDup (cat_id <$> categories) →
  clickCards categories ∅ ids = Some sel →
  length (handleStart categories sel) = size sel.
Proof.
  intros Hnd Hrun. apply handleStart_length; [done|].
  eapply clickCards_subseteq; [done|]. set_solver.
Qed.

Lemma start_count_witness :
  ∃ sel, clickCards [sample_category] ∅ ["memory"] = Some sel ∧
         length (handleStart [sample_category] sel) = size sel.
Proof.
  eexists. split; [vm_compute; reflexivity|].
  apply (start_count [sample_category] ["memory"]).
  - apply NoDup_singleton.
  - reflexivity.
Defined.

(** ** Moving through the questions *)

Lemma TestScreen_step_index questions st ev st' out :
  index_inv questions st →
  TestScreen_step questions st ev = Some (st', out) →
  index_inv questions st'.
Proof.
  unfold index_inv. intros Hinv Hstep. destruct ev; simpl in Hstep.
  - destruct (timer st); [|done]. simplify_eq. unfold countdownTick.
    by destruct (timeLeft st <=? 1).
  - destruct (question_at questions (currentQuestionIndex st)) as [q|] eqn:Hq;
      [|done].
    destruct (options q !! index); [|done].
    unfold handleAnswerSelect in Hstep. rewrite Hq in Hstep. by simplify_eq.
  - destruct (currentQuestionIndex st =? 0); [done|]. simplify_eq.
    unfold handlePrev. destruct (Z.ltb_spec 0 (currentQuestionIndex st));
      simpl; lia.
  - unfold handleNext in Hstep.
    destruct (Z.ltb_spec (currentQuestionIndex st)
                (questions_length questions - 1)); [|done].
    simplify_eq. simpl. lia.
  - destruct (currentQuestionIndex st <? questions_length questions - 1);
      [done|].
    by simplify_eq.
Qed.

Lemma TestScreen_run_index questions evs : ∀ cur st out,
  index_inv questions cur.1 →
  TestScreen_run questions cur evs = Some (st, out) →
  index_inv questions st.
Proof.
  induction evs as [|ev evs IH]; intros [st0 out0] st out Hinv Hrun;
    simpl in Hrun.
  - by simplify_eq.
  - destruct out0; [done|].
    destruct (TestScreen_step questions st0 ev) as [[st1 out1]|] eqn:Hstep;
      [|done].
    eapply (IH (st1, out1)); [|done]. by eapply TestScreen_step_index.
Qed.

Lemma mount_index_inv questions L :
  questions ≠ [] → index_inv questions (TestScreen_mount questions L).1.
Proof.
  intros Hne. unfold index_inv, TestScreen_mount, countdownStart,
    questions_length.
  destruct questions; [done|]. destruct (L <=? 0); simpl; lia.
Qed.

Lemma index_inv_question questions st :
  index_inv questions st →
  is_Some (question_at questions (currentQuestionIndex st)).
Proof.
  unfold index_inv, question_at, questions_length. intros [H0 Hlt].
  destruct (Z.ltb_spec (currentQuestionIndex st) 0); [lia|].
  apply lookup_lt_is_Some. lia.
Qed.

(** X5: With questions, in every state the test screen can reach
    [currentQuestionIndex] is the index of a question, so [currentQuestion]
    is defined and rendering never reads a field of [undefined]; and the
    Submit button takes the place of Next exactly on the last question. *)
Theorem current_question_defined (questions : list Question) (L : Z)
    (evs : list TestEvent) (st : TestScreenState) (out : option UserAnswer) :
  questions ≠ [] →
  TestScreen_exec questions L evs = Some (st, out) →
  0 ≤ currentQuestionIndex st < questions_length questions ∧
  is_Some (question_at questions (currentQuestionIndex st)) ∧
  (TestScreen_step questions st ClickNext = None
   ↔ currentQuestionIndex st = questions_length questions - 1) ∧
  (is_Some (TestScreen_step questions st ClickSubmit)
   ↔ currentQuestionIndex st = questions_length questions - 1).
Proof.
  intros Hne Hrun.
  pose proof (TestScreen_run_index _ _ _ _ _
                (mount_index_inv questions L Hne) Hrun) as Hinv.
  split; [done|]. split; [by apply index_inv_question|].
  unfold index_inv in Hinv. simpl.
  destruct (Z.ltb_spec (currentQuestionIndex st)
              (questions_length questions - 1)).
  - split; (split; [intros H'; try done; by destruct H'|lia]).
  - split; (split; [lia|intros _; eauto]).
Qed.

Lemma current_question_defined_witness :
  ∃ st out,
    TestScreen_exec [sample_question; sample_question] 5 [ClickNext; Tick]
    = Some (st, out) ∧
    is_Some (question_at [sample_question; sample_question]
               (currentQuestionIndex st)).
Proof.
  eexists _, _. split; [vm_compute; reflexivity|].
  refine (proj1 (proj2 (current_question_defined
    [sample_question; sample_question] 5 [ClickNext; Tick] _ _ _ eq_refl))).
  discriminate.
Defined.

(** X6: Next and Previous undo each other, never call [onSubmit], and are not
    available past the ends: Previous is disabled on the first question and
    Next is absent on the last. *)
Theorem next_previous_inverse (questions : list Question)
    (st : TestScreenState) :
  index_inv questions st →
  (∀ st1 out1, TestScreen_step questions st ClickNext = Some (st1, out1) →
     out1 = None ∧
     currentQuestionIndex st1 = currentQuestionIndex st + 1 ∧
     TestScreen_step questions st1 ClickPrevious = Some (st, None)) ∧
  (∀ st1 out1, TestScreen_step questions st ClickPrevious = Some (st1, out1) →
     out1 = None ∧
     currentQuestionIndex st1 = currentQuestionIndex st - 1 ∧
     TestScreen_step questions st1 ClickNext = Some (st, None)) ∧
  (currentQuestionIndex st = 0 →
     TestScreen_step questions st ClickPrevious = None) ∧
  (currentQuestionIndex st = questions_length questions - 1 →
     TestScreen_step questions st ClickNext = None).
Proof.
  unfold index_inv. intros [H0 Hlt]. destruct st as [idx ans tl tm].
  simpl in *. unfold handleNext, handlePrev. simpl. split_and!.
  - intros st1 out1.
    destruct (Z.ltb_spec idx (questions_length questions - 1)); [|done].
    intros [= <- <-]. simpl.
    destruct (Z.eqb_spec (idx + 1) 0); [lia|].
    destruct (Z.ltb_spec 0 (idx + 1)); [|lia].
    split_and!; try done. unfold setCurrentQuestionIndex. simpl.
    do 3 f_equal. lia.
  - intros st1 out1. destruct (Z.eqb_spec idx 0); [done|].
    destruct (Z.ltb_spec 0 idx); [|lia].
    intros [= <- <-]. simpl.
    destruct (Z.ltb_spec (idx - 1) (questions_length questions - 1)); [|lia].
    split_and!; try done. unfold setCurrentQuestionIndex. simpl.
    do 3 f_equal. lia.
  - intros ->. done.
  - intros ->. by rewrite Z.ltb_irrefl.
Qed.

Lemma next_previous_inverse_witness :
  let qs := [sample_question; sample_question] in
  let st := (TestScreen_mount qs 5).1 in
  ∃ st1,
    TestScreen_step qs st ClickNext = Some (st1, None) ∧
    TestScreen_step qs st1 ClickPrevious = Some (st, None).
Proof.
  intros qs st. eexists. split; [vm_compute; reflexivity|].
  refine (proj2 (proj2 (proj1 (next_previous_inverse qs st _) _ None eq_refl))).
  vm_compute. split; [discriminate|reflexivity].
Defined.

(** ** What the test screen shows *)

Lemma progress_bounds questions st :
  index_inv questions st →
  ∃ p, progress questions st = Some p ∧ (0 < p)%Q ∧ (p <= 100)%Q ∧
       (currentQuestionIndex st = questions_length questions - 1 →
        (p == 100)%Q).
Proof.
  unfold index_inv, progress. intros [H0 Hlt].
  rewrite js_div_nonzero by lia. eexists. split; [done|].
  destruct (questions_length questions) as [|len|len] eqn:Hlen; [lia| |lia].
  unfold Qlt, Qle, Qeq, Qdiv, Qmult, Qinv. simpl.
  split; [lia|]. split; [lia|]. intros ->. lia.
Qed.

(** X7: With questions, the progress bar is always drawn with a width above 0%
    and at most 100% (its division is never by zero), and it is full on the
    last question. *)
Theorem progress_in_range (questions : list Question) (L : Z)
    (evs : list TestEvent) (st : TestScreenState) (out : option UserAnswer) :
  questions ≠ [] →
  TestScreen_exec questions L evs = Some (st, out) →
  ∃ p, progress questions st = Some p ∧ (0 < p)%Q ∧ (p <= 100)%Q ∧
       (currentQuestionIndex st = questions_length questions - 1 →
        (p == 100)%Q).
Proof.
  intros Hne Hrun. apply progress_bounds.
  exact (TestScreen_run_index _ _ _ _ _ (mount_index_inv questions L Hne) Hrun).
Qed.

Lemma progress_in_range_witness :
  ∃ st out p,
    TestScreen_exec [sample_question; sample_question] 5 [ClickNext]
    = Some (st, out) ∧
    progress [sample_question; sample_question] st = Some p ∧ (p == 100)%Q.
Proof.
  eexists _, _.
  destruct (progress_in_range [sample_question; sample_question] 5 [ClickNext]
              _ _ ltac:(discriminate) eq_refl) as (p & Hp & _ & _ & Hfull).
  exists p. split; [vm_compute; reflexivity|]. split; [exact Hp|].
  apply Hfull. vm_compute. reflexivity.
Defined.

(** X8: A click on an option highlights that option and no other of the current
    question, leaves the answers to the questions with another id as they
    were, and stays on the question. *)
Theorem option_highlighted (questions : list Question) (st st' : TestScreenState)
    (index : nat) (out : option UserAnswer) :
  TestScreen_step questions st (ClickOption index) = Some (st', out) →
  ∃ q, question_at questions (currentQuestionIndex st) = Some q ∧
    (∀ j, isSelected st' q j = bool_decide (j = index)) ∧
    (∀ q' j, q_id q' ≠ q_id q → isSelected st' q' j = isSelected st q' j) ∧
    currentQuestionIndex st' = currentQuestionIndex st ∧
    timeLeft st' = timeLeft st.
Proof.
  intros Hstep. pose proof Hstep as Hrec.
  apply ClickOption_records in Hrec as (q & Hq & _ & Hans & _).
  exists q. split; [done|]. unfold isSelected. rewrite Hans. split_and!.
  - intros j. rewrite lookup_insert_eq. apply bool_decide_ext.
    split; [intros [= H]; lia|by intros ->].
  - intros q' j Hne. rewrite lookup_insert_ne; [done|].
    unfold toString. intros Heq. by apply (inj pretty) in Heq.
  - simpl in Hstep. rewrite Hq in Hstep.
    destruct (options q !! index); [|done].
    unfold handleAnswerSelect in Hstep. rewrite Hq in Hstep. by simplify_eq.
  - simpl in Hstep. rewrite Hq in Hstep.
    destruct (options q !! index); [|done].
    unfold handleAnswerSelect in Hstep. rewrite Hq in Hstep. by simplify_eq.
Qed.

Lemma option_highlighted_witness :
  let st := (TestScreen_mount [sample_question] 5).1 in
  ∃ st' out q,
    TestScreen_step [sample_question] st (ClickOption 2) = Some (st', out) ∧
    question_at [sample_question] (currentQuestionIndex st) = Some q ∧
    isSelected st' q 1 = false ∧ isSelected st' q 2 = true.
Proof.
  intros st. eexists _, _.
  destruct (option_highlighted [sample_question] st _ 2 _ eq_refl)
    as (q & Hq & Hsel & _).
  exists q. split; [vm_compute; reflexivity|]. split; [exact Hq|].
  split; [exact (Hsel 1%nat)|exact (Hsel 2%nat)].
Defined.

Lemma secondsShown_two_digits (s : Z) :
  0 ≤ s < 60 → String.length (padStart 2 "0" (toString s)) = 2%nat.
Proof.
  intros Hs. assert (∃ n : nat, (n < 60)%nat ∧ s = Z.of_nat n) as (n & Hn & ->).
  { exists (Z.to_nat s). lia. }
  clear Hs. do 60 (destruct n as [|n]; [vm_compute; reflexivity|]). lia.
Qed.

(** X9: For a limit [L ≥ 0] the clock always shows the time left exactly:
    minutes and seconds add up to [timeLeft], the seconds are below 60 and
    written with exactly two digits. *)
Theorem clock_shows_time_left (questions : list Question) (L : Z)
    (evs : list TestEvent) (st : TestScreenState) (out : option UserAnswer) :
  0 ≤ L →
  TestScreen_exec questions L evs = Some (st, out) →
  minutes st * 60 + seconds st = timeLeft st ∧
  0 ≤ seconds st < 60 ∧
  String.length (secondsShown st) = 2%nat.
Proof.
  intros HL Hrun.
  destruct (mount_timer_inv questions L HL) as (Hinv & _).
  destruct (TestScreen_run_time _ _ _ _ _ Hinv Hrun) as (Hinv' & _).
  apply timer_inv_nonneg in Hinv'. unfold minutes, seconds, secondsShown.
  pose proof (Z.rem_bound_pos (timeLeft st) 60 Hinv' ltac:(lia)) as Hrem.
  split_and!; try done; try lia.
  - rewrite Z.rem_mod_nonneg by lia.
    pose proof (Z.div_mod (timeLeft st) 60 ltac:(lia)). lia.
  - by apply secondsShown_two_digits.
Qed.

Lemma clock_shows_time_left_witness :
  ∃ st out,
    TestScreen_exec [sample_question] 125 [Tick; Tick] = Some (st, out) ∧
    minutes st * 60 + seconds st = timeLeft st ∧
    timeShown st = "2:03 remaining".
Proof.
  eexists _, _. split; [vm_compute; reflexivity|].
  pose proof (clock_shows_time_left [sample_question] 125 [Tick; Tick] _ _
                ltac:(lia) eq_refl) as (H1 & _).
  split; [exact H1|vm_compute; reflexivity].
Defined.

(** ** Tests without a countdown *)

Lemma TestScreen_run_no_timer questions evs : ∀ cur st out,
  timer cur.1 = false → timeLeft cur.1 ≠ 0 →
  TestScreen_run questions cur evs = Some (st, out) →
  timer st = false ∧ timeLeft st = timeLeft cur.1 ∧ (Tick ∉ evs) ∧
  (out = None ∨ (evs = [] ∧ out = cur.2) ∨ last evs = Some ClickSubmit).
Proof.
  induction evs as [|ev evs IH]; intros [st0 out0] st out Ht Hleft Hrun;
    simpl in *.
  - simplify_eq. split_and!; try done; [apply not_elem_of_nil|auto].
  - destruct out0; [done|].
    destruct (TestScreen_step questions st0 ev) as [[st1 out1]|] eqn:Hstep;
      [|done].
    assert (timer st1 = false ∧ timeLeft st1 = timeLeft st0 ∧ ev ≠ Tick ∧
            (out1 = None ∨ ev = ClickSubmit)) as (Ht1 & Hl1 & Hev & Hout1).
    { destruct ev; simpl in Hstep.
      - by rewrite Ht in Hstep.
      - destruct (question_at questions (currentQuestionIndex st0)) as [q|] eqn:Hq;
          [|done].
        destruct (options q !! index); [|done].
        unfold handleAnswerSelect in Hstep. rewrite Hq in Hstep. simplify_eq.
        split_and!; try done. left. by apply submitOnTimeout_running.
      - destruct (currentQuestionIndex st0 =? 0); [done|]. simplify_eq.
        unfold handlePrev. destruct (0 <? currentQuestionIndex st0);
          split_and!; auto.
      - unfold handleNext in Hstep.
        destruct (currentQuestionIndex st0 <? questions_length questions - 1);
          [|done].
        simplify_eq. split_and!; auto.
      - destruct (currentQuestionIndex st0 <? questions_length questions - 1);
          [done|].
        simplify_eq. split_and!; auto. }
    destruct (IH (st1, out1) st out Ht1 ltac:(simpl; congruence) Hrun)
      as (Ht' & Hl' & Hno & Hout).
    simpl in *. split_and!; try done; [congruence| |].
    + apply not_elem_of_cons. done.
    + destruct Hout as [Hnone|[(Hnil & Hsame)|Hlast]]; [by left| |].
      * subst evs out. destruct Hout1 as [Hnone|Hsub]; [by left|].
        subst ev. right. by right.
      * right; right. destruct evs; [done|]. done.
Qed.

(** X10: With a negative time limit there is no countdown: the interval is never
    set, the time left keeps its negative value, and [onSubmit] is called
    only by a click on the Submit button. *)
Theorem negative_limit_never_times_out (questions : list Question) (L : Z)
    (evs : list TestEvent) (st : TestScreenState) (out : option UserAnswer) :
  L < 0 →
  TestScreen_exec questions L evs = Some (st, out) →
  timer st = false ∧ timeLeft st = L ∧ (Tick ∉ evs) ∧
  (∀ answers, out = Some answers → last evs = Some ClickSubmit).
Proof.
  intros HL Hrun. unfold TestScreen_exec in Hrun.
  assert (timer (TestScreen_mount questions L).1 = false ∧
          timeLeft (TestScreen_mount questions L).1 = L ∧
          (TestScreen_mount questions L).2 = None) as (Ht & Hl & Ho).
  { unfold TestScreen_mount, countdownStart.
    destruct (Z.leb_spec L 0); [|lia]. simpl. split_and!; try done.
    apply submitOnTimeout_running. simpl. lia. }
  destruct (TestScreen_run_no_timer _ _ _ _ _ Ht ltac:(lia) Hrun)
    as (Ht' & Hl' & Hno & Hout).
  split_and!; try done; [congruence|].
  intros answers ->.
  destruct Hout as [Hnone|[(_ & Heq)|Hlast]]; [done|congruence|done].
Qed.

Lemma negative_limit_never_times_out_witness :
  ∃ st out,
    TestScreen_exec [sample_question] (-5) [ClickOption 0; ClickSubmit]
    = Some (st, out) ∧
    timer st = false ∧ timeLeft st = -5.
Proof.
  eexists _, _. split; [vm_compute; reflexivity|].
  pose proof (negative_limit_never_times_out [sample_question] (-5)
                [ClickOption 0; ClickSubmit] _ _ ltac:(lia) eq_refl)
    as (H1 & H2 & _).
  split; [exact H1|exact H2].
Defined.

(** X11: A test with questions and a time limit of 0 is submitted, with no
    answers, the moment it is shown: nothing can be clicked. *)
Theorem zero_limit_submits_at_once (questions : list Question)
    (evs : list TestEvent) (st : TestScreenState) (out : option UserAnswer) :
  questions ≠ [] →
  TestScreen_exec questions 0 evs = Some (st, out) →
  evs = [] ∧ out = Some ∅ ∧ timeLeft st = 0.
Proof.
  intros Hne Hrun. unfold TestScreen_exec, TestScreen_mount in Hrun.
  simpl in Hrun. rewrite submitOnTimeout_nonempty in Hrun by done.
  destruct evs; simpl in Hrun; [|done]. by simplify_eq.
Qed.

Lemma zero_limit_submits_at_once_witness :
  ∃ st out, TestScreen_exec [sample_question] 0 [] = Some (st, out) ∧
            out = Some ∅.
Proof.
  eexists _, _. split; [vm_compute; reflexivity|].
  refine (proj1 (proj2 (zero_limit_submits_at_once [sample_question] [] _ _ _
                          eq_refl))).
  discriminate.
Defined.

(** ** What the server receives *)

Lemma digit_val_pretty_N_char (d : N) :
  (d < 10)%N → digit_val 10 (pretty_N_char d) = Some (Z.of_N d).
Proof.
  intros Hd.
  assert (d = 0 ∨ d = 1 ∨ d = 2 ∨ d = 3 ∨ d = 4 ∨ d = 5 ∨ d = 6 ∨ d = 7 ∨
          d = 8 ∨ d = 9)%N as Hcases by lia.
  repeat destruct Hcases as [->|Hcases]; try subst d; reflexivity.
Qed.

(** Reading back the digits that [pretty_N_go] writes in front of [s]. *)
Lemma parse_digits_pretty_N_go (x : N) : ∀ acc s,
  (0 < x)%N →
  ∃ k : Z, 0 ≤ k ∧
    parse_digits 10 acc (pretty_N_go x s)
    = parse_digits 10 (Some (10 ^ k * default 0 acc + Z.of_N x)) s.
Proof.
  induction (N.lt_wf_0 x) as [x _ IH]; intros acc s Hx.
  rewrite pretty_N_go_step by done.
  destruct (decide (x `div` 10 = 0)%N) as [Hz|Hnz].
  - rewrite Hz, pretty_N_go_0. simpl.
    assert (x < 10)%N as Hlt by (by apply N.div_small_iff in Hz).
    rewrite N.mod_small by done. rewrite digit_val_pretty_N_char by done.
    exists 1. split; [lia|]. do 2 f_equal.
  - destruct (IH (x `div` 10)%N) with (acc := acc)
      (s := String (pretty_N_char (x `mod` 10)) s) as (k & Hk & ->).
    { apply N.div_lt; lia. }
    { by apply N.neq_0_lt_0. }
    simpl. rewrite digit_val_pretty_N_char by (apply N.mod_lt; lia).
    exists (k + 1). split; [lia|]. do 2 f_equal.
    rewrite Z.pow_add_r by lia. simpl default.
    pose proof (N.div_mod x 10 ltac:(lia)) as Hdm.
    assert (Z.of_N x = 10 * Z.of_N (x `div` 10) + Z.of_N (x `mod` 10)) by lia.
    lia.
Qed.

Lemma pretty_N_go_leading (x : N) : ∀ s,
  (0 < x)%N → ∃ c rest, pretty_N_go x s = String c rest ∧ nonzero_digit c.
Proof.
  induction (N.lt_wf_0 x) as [x _ IH]; intros s Hx.
  rewrite pretty_N_go_step by done.
  destruct (decide (x `div` 10 = 0)%N) as [Hz|Hnz].
  - rewrite Hz, pretty_N_go_0.
    assert (x < 10)%N as Hlt by (by apply N.div_small_iff in Hz).
    rewrite N.mod_small by done. eexists _, _. split; [done|].
    assert (x = 1 ∨ x = 2 ∨ x = 3 ∨ x = 4 ∨ x = 5 ∨ x = 6 ∨ x = 7 ∨
            x = 8 ∨ x = 9)%N as Hcases by lia.
    unfold nonzero_digit.
    repeat destruct Hcases as [->|Hcases]; try subst x; simpl;
      repeat (first [by left | right]).
  - apply IH; [apply N.div_lt; lia|by apply N.neq_0_lt_0].
Qed.

Lemma parseInt_numeral c rest :
  nonzero_digit c →
  parseInt (String c rest)
  = (λ n, 1 * n) <$> parse_digits 10 None (String c rest) ∧
  parseInt (String "-" (String c rest))
  = (λ n, -1 * n) <$> parse_digits 10 None (String c rest).
Proof.
  unfold nonzero_digit. intros Hc.
  repeat (apply elem_of_cons in Hc as [->|Hc]; [by split|]).
  by apply not_elem_of_nil in Hc.
Qed.

(** [parseInt] reads back the id that [toString] wrote, for the ids that
    [toString] writes digit by digit. *)
Lemma parseInt_toString (n : Z) :
  safe_integer n → parseInt (toString n) = Some n.
Proof.
  intros _. unfold toString, pretty, pretty_Z. destruct n as [|p|p]; [done| |].
  - unfold pretty, pretty_positive, pretty, pretty_N.
    rewrite decide_False by done.
    destruct (pretty_N_go_leading (N.pos p) "") as (c & rest & Hs & Hc); [lia|].
    destruct (parse_digits_pretty_N_go (N.pos p) None "") as (k & _ & Hp);
      [lia|].
    rewrite Hs in *. rewrite (proj1 (parseInt_numeral c rest Hc)), Hp.
    simpl. f_equal. lia.
  - unfold pretty, pretty_positive, pretty, pretty_N.
    rewrite decide_False by done.
    destruct (pretty_N_go_leading (N.pos p) "") as (c & rest & Hs & Hc); [lia|].
    destruct (parse_digits_pretty_N_go (N.pos p) None "") as (k & _ & Hp);
      [lia|].
    rewrite Hs in *. change ("-" +:+ String c rest)
      with (String "-" (String c rest)).
    rewrite (proj2 (parseInt_numeral c rest Hc)), Hp.
    simpl. f_equal. lia.
Qed.

(** X12: The body of the /submit-test request made for a test whose question
    ids are safe integers: one element for each recorded answer, whose
    [questionId] is the id of a question of the test (it survives the trip
    through the string key) and whose [selectedOption] is the index of one
    of that question's options. *)
Theorem submitted_request_content (questions : list Question) (L : Z)
    (evs : list TestEvent) (st : TestScreenState) (answers : UserAnswer) :
  (∀ q, q ∈ questions → safe_integer (q_id q)) →
  TestScreen_exec questions L evs = Some (st, Some answers) →
  size (backendAnswers answers) = size answers ∧
  ∀ questionId selectedOption,
    (questionId, selectedOption) ∈ backendAnswers answers →
    ∃ q, q ∈ questions ∧ questionId = Some (q_id q) ∧
         valid_option q selectedOption ∧
         answers !! toString (q_id q) = Some selectedOption.
Proof.
  intros Hsafe Hrun.
  pose proof (TestScreen_run_answers _ _ _ _
                (mount_answers_inv questions L) Hrun) as [Hvalid Hout].
  simpl in *. rewrite <- (Hout answers eq_refl) in Hvalid.
  destruct (backendAnswers_spec answers) as [Hsize Hmem].
  split; [done|].
  intros questionId selectedOption Hin.
  apply Hmem in Hin as (k & i & Hki & [= -> ->]).
  destruct (Hvalid k i Hki) as (q & Hq & <- & Hi).
  exists q. by rewrite parseInt_toString by auto.
Qed.

Lemma submitted_request_content_witness :
  ∃ st answers,
    TestScreen_exec [sample_question] 2 [ClickOption 1; ClickSubmit]
    = Some (st, Some answers) ∧
    backendAnswers answers = {[+ (Some 7, 1) +]} ∧
    size (backendAnswers answers) = size answers.
Proof.
  eexists _, _. split; [vm_compute; reflexivity|].
  split; [vm_compute; reflexivity|].
  refine (proj1 (submitted_request_content [sample_question] 2
                   [ClickOption 1; ClickSubmit] _ _ _ eq_refl)).
  intros q Hq. apply list_elem_of_singleton in Hq as ->.
  vm_compute. split; reflexivity.
Defined.

(** ** Starting a test *)

(** X13: When [handleStartTest] is done: on success the test screen is shown with
    the questions and the time limit of the response, old results are reset
    and no error is left; on failure the selection screen is back with an
    error message, and everything else, old results included, is kept. *)
Theorem handleStartTest_outcome (categories : list Category)
    (r : Fetched StartResponse) (st : AppState) :
  let st' := handleStartTest categories r st in
  (∀ data, succeeded r = Some data →
     screen st' = test ∧ quizQuestions st' = questions data ∧
     timeLimit st' = timeLimitSeconds data ∧
     testResults st' = None ∧ analysis st' = None ∧ error st' = None ∧
     allCategories st' = allCategories st) ∧
  (succeeded r = None →
     screen st' = selection ∧ is_Some (error st') ∧
     quizQuestions st' = quizQuestions st ∧ timeLimit st' = timeLimit st ∧
     testResults st' = testResults st ∧ analysis st' = analysis st ∧
     allCategories st' = allCategories st).
Proof.
  intros st'. subst st'. split.
  - intros data Hok. destruct r as [e|[e|d]|[e|d]]; try done.
    simpl in Hok. by simplify_eq.
  - intros Hfail. destruct r as [e|[e|d]|[e|d]]; try done; by split_and!.
Qed.

Lemma handleStartTest_outcome_witness :
  screen (handleStartTest [sample_category] (Rejects NonError) App_initial)
  = selection ∧
  screen (handleStartTest [sample_category] (Ok (JsonValue sample_start))
            App_initial) = test.
Proof.
  split.
  - apply (proj2 (handleStartTest_outcome [sample_category] (Rejects NonError)
                    App_initial)). reflexivity.
  - apply (proj1 (handleStartTest_outcome [sample_category]
                    (Ok (JsonValue sample_start)) App_initial) sample_start).
    reflexivity.
Defined.



(** X15: [fetchCategories] never touches the screen, the test or its results.
    On success it stores the categories and leaves the error as it was; on
    failure it leaves the categories and sets an error, which is 'Failed to
    fetch categories' whenever the response is not ok, whatever its body. *)
Theorem fetchCategories_outcome (r : Fetched (list Category)) (st : AppState) :
  let st' := fetchCategories_settle r st in
  (screen st' = screen st ∧ quizQuestions st' = quizQuestions st ∧
   testResults st' = testResults st ∧ analysis st' = analysis st ∧
   timeLimit st' = timeLimit st) ∧
  (∀ data, succeeded r = Some data →
     allCategories st' = data ∧ error st' = error st) ∧
  (succeeded r = None →
     allCategories st' = allCategories st ∧ is_Some (error st')) ∧
  (∀ body, r = NotOk body → error st' = Some "Failed to fetch categories").
Proof.
  intros st'. subst st'. split; [|split; [|split]].
  - by destruct r as [e|[e|d]|[e|d]].
  - intros data Hok. destruct r as [e|[e|d]|[e|d]]; try done.
    simpl in Hok. by simplify_eq.
  - intros Hfail. destruct r as [e|[e|d]|[e|d]]; try done; by split.
  - by intros body ->.
Qed.

Lemma fetchCategories_outcome_witness :
  allCategories (fetchCategories_settle (Ok (JsonValue [sample_category]))
                   App_initial) = [sample_category] ∧
  error (fetchCategories_settle (NotOk (JsonValue (Some "down"))) App_initial)
  = Some "Failed to fetch categories".
Proof.
  split.
  - apply (proj1 (proj2 (fetchCategories_outcome
             (Ok (JsonValue [sample_category])) App_initial))
             [sample_category]). reflexivity.
  - apply (proj2 (proj2 (proj2 (fetchCategories_outcome
             (NotOk (JsonValue (Some "down"))) App_initial)))
             (JsonValue (Some "down"))). reflexivity.
Defined.

(** ** The application between requests *)

Lemma settle_one_none p l : pending_count p l = 0%nat → settle_one p l = None.
Proof.
  induction l as [|x l IH]; [done|]. simpl.
  destruct (decide (x = p)); [done|]. intros H. by rewrite IH.
Qed.

(** X16: Start and submit requests never overlap: at most one of them is in
    flight, exactly when the loading screen is shown, and until it settles
    no callback of a child component can run. *)
Theorem one_request_at_a_time (evs : list Event) (w : World) :
  App_run App_mount evs = Some w →
  (starting w + submitting w ≤ 1)%nat ∧
  (screen (app w) = loading ↔ (starting w + submitting w = 1)%nat) ∧
  (screen (app w) = loading →
     ∀ ev w', App_step w ev = Some w' → is_settle ev).
Proof.
  intros Hrun. pose proof (App_run_inv _ _ _ App_mount_inv Hrun) as Hinv.
  unfold App_inv in Hinv. split; [|split].
  - destruct (screen (app w)); [lia|lia| |lia]. destruct Hinv; lia.
  - destruct (screen (app w)); [split; [done|lia]..| |split; [done|lia]];
      [split; [done|lia]..|].
    split; [|done]. intros _. destruct Hinv; lia.
  - intros Hs ev w' Hstep. destruct ev; try done; simpl in Hstep;
      unfold renderScreen in Hstep; by rewrite Hs in Hstep.
Qed.

Lemma one_request_at_a_time_witness :
  ∃ w, App_run App_mount (take 3 late_categories_session) = Some w ∧
       (starting w + submitting w ≤ 1)%nat.
Proof.
  eexists. split; [vm_compute; reflexivity|].
  apply (one_request_at_a_time (take 3 late_categories_session) _ eq_refl).
Defined.

Lemma App_step_results_inv w ev w' :
  results_inv (app w) → App_step w ev = Some w' → results_inv (app w').
Proof.
  unfold results_inv. intros Hinv Hstep.
  destruct ev; simpl in Hstep; app_step_cases Hstep; simplify_eq; simpl;
    try done.
  - by destruct r as [e|[e|d]|[e|d]].
  - destruct r as [e|[e|d]|[e|d]]; simpl; first [exact Hinv|done].
  - destruct r as [e|[e|d]|[e|d]]; simpl; try exact Hinv.
    split; intros _; eauto.
Qed.

Lemma App_run_results_inv evs : ∀ w w',
  results_inv (app w) → App_run w evs = Some w' → results_inv (app w').
Proof.
  induction evs as [|ev evs IH]; intros w w' Hinv Hrun; simpl in Hrun.
  - by simplify_eq.
  - destruct (App_step w ev) as [w1|] eqn:Hstep; [|done].
    eapply IH; [|done]. by eapply App_step_results_inv.
Qed.

(** X17: Results and analysis are always held together, so whenever the results
    screen is rendered the analysis is there and the 'Loading analysis...'
    line is never shown. *)
Theorem analysis_comes_with_results (evs : list Event) (w : World) :
  App_run App_mount evs = Some w →
  (is_Some (testResults (app w)) ↔ is_Some (analysis (app w))) ∧
  ∀ r, renderScreen (app w) = ResultsScreenOf r →
    is_Some (analysis (app w)) ∧
    loadingAnalysisShown (analysis (app w)) (error (app w)) = false.
Proof.
  intros Hrun.
  assert (results_inv (app w)) as Hinv.
  { eapply App_run_results_inv; [|done]. split; intros [? ?]; done. }
  split; [done|]. intros r Hshown.
  assert (is_Some (analysis (app w))) as Ha.
  { apply Hinv. unfold renderScreen in Hshown.
    destruct (screen (app w)); try done.
    destruct (testResults (app w)); [eauto|done]. }
  split; [done|]. unfold loadingAnalysisShown.
  by rewrite bool_decide_eq_true_2.
Qed.

Lemma analysis_comes_with_results_witness :
  ∃ w, App_run App_mount (sample_session (Ok (JsonValue sample_submit))) = Some w ∧
       is_Some (analysis (app w)) ∧
       loadingAnalysisShown (analysis (app w)) (error (app w)) = false.
Proof.
  eexists. split; [vm_compute; reflexivity|].
  apply (proj2 (analysis_comes_with_results
                  (sample_session (Ok (JsonValue sample_submit))) _ eq_refl)
           unbalanced_results).
  vm_compute. reflexivity.
Defined.

Lemma App_step_stuck w ev w' :
  App_inv w → screen (app w) = results → testResults (app w) = None →
  App_step w ev = Some w' →
  (∃ r, ev = CategoriesSettle r) ∧ App_inv w' ∧
  screen (app w') = results ∧ testResults (app w') = None ∧
  sent w' = sent w.
Proof.
  intros Hinv Hs Hr Hstep.
  pose proof (App_step_facts _ _ _ Hinv Hstep) as (Hinv' & _).
  unfold App_inv in Hinv. rewrite Hs in Hinv. destruct Hinv as [Hcs Hcu].
  unfold starting, submitting in *.
  destruct ev; simpl in Hstep.
  - unfold renderScreen in Hstep. by rewrite Hs, Hr in Hstep.
  - unfold renderScreen in Hstep. by rewrite Hs, Hr in Hstep.
  - unfold renderScreen in Hstep. by rewrite Hs, Hr in Hstep.
  - app_step_cases Hstep. simplify_eq. simpl.
    destruct (fetchCategories_settle_same r (app w)) as (Hs' & Hr' & _).
    split; [eauto|]. split; [done|]. split; [congruence|].
    split; [congruence|done].
  - by rewrite settle_one_none in Hstep.
  - by rewrite settle_one_none in Hstep.
Qed.

(** X18: After a failed submission the application is stuck: the screen is
    'results' without results, which renders the spinner, so the error is not
    displayed, no callback can run, no request is sent any more, and only the
    categories request may still settle. *)
Theorem failed_submission_is_stuck (evs evs' : list Event) (w w' : World) :
  App_run App_mount evs = Some w →
  screen (app w) = results → testResults (app w) = None →
  App_run w evs' = Some w' →
  renderScreen (app w') = LoadingScreen ∧
  screen (app w') = results ∧ testResults (app w') = None ∧
  sent w' = sent w ∧
  ∀ ev, ev ∈ evs' → ∃ r, ev = CategoriesSettle r.
Proof.
  intros Hrun Hs Hr Hrun'.
  pose proof (App_run_inv _ _ _ App_mount_inv Hrun) as Hinv. clear Hrun.
  revert w Hinv Hs Hr Hrun'.
  induction evs' as [|ev evs' IH]; intros w Hinv Hs Hr Hrun'; simpl in Hrun'.
  - simplify_eq. unfold renderScreen. rewrite Hs, Hr.
    split_and!; try done. intros ev Hev. by apply not_elem_of_nil in Hev.
  - destruct (App_step w ev) as [w1|] eqn:Hstep; [|done].
    destruct (App_step_stuck _ _ _ Hinv Hs Hr Hstep)
      as (Hev & Hinv1 & Hs1 & Hr1 & Hsent1).
    destruct (IH w1 Hinv1 Hs1 Hr1 Hrun') as (H1 & H2 & H3 & H4 & H5).
    split_and!; try done; [congruence|].
    intros ev' Hev'. apply elem_of_cons in Hev' as [->|?]; auto.
Qed.

Lemma failed_submission_is_stuck_witness :
  ∃ w w',
    App_run App_mount late_categories_session = Some w ∧
    App_run w [CategoriesSettle (Ok (JsonValue [sample_category]))] = Some w' ∧
    error (app w') = Some "Scoring failed" ∧
    renderScreen (app w') = LoadingScreen.
Proof.
  eexists _, _. split; [vm_compute; reflexivity|].
  split; [vm_compute; reflexivity|]. split; [vm_compute; reflexivity|].
  apply (failed_submission_is_stuck late_categories_session
           [CategoriesSettle (Ok (JsonValue [sample_category]))] _ _
           eq_refl eq_refl eq_refl eq_refl).
Defined.

Lemma App_run_quiz evs : ∀ w w',
  App_run w evs = Some w' → screen (app w') = test →
  (screen (app w) = test ∧ quizQuestions (app w') = quizQuestions (app w) ∧
   timeLimit (app w') = timeLimit (app w)) ∨
  ∃ data, StartSettle (Ok (JsonValue data)) ∈ evs ∧
          quizQuestions (app w') = questions data ∧
          timeLimit (app w') = timeLimitSeconds data.
Proof.
  induction evs as [|ev evs IH]; intros w w' Hrun Hs; simpl in Hrun.
  - simplify_eq. by left.
  - destruct (App_step w ev) as [w1|] eqn:Hstep; [|done].
    destruct (IH _ _ Hrun Hs) as [(Hs1 & Hq & Ht)|(data & Hin & Hd)].
    + rewrite Hq, Ht.
      destruct ev; simpl in Hstep; app_step_cases Hstep; simplify_eq;
        simpl in Hs1; try done.
      * left. destruct r as [e|[e|d]|[e|d]]; by simpl in *.
      * destruct r as [e|[e|d]|[e|d]]; simpl in Hs1; try done.
        right. exists d. split; [left|done].
    + right. exists data. split; [by right|done].
Qed.

(** X19: The questions and the time limit of a test on screen are those of a
    successful response to /start-test received in this run. *)
Theorem test_shows_server_questions (evs : list Event) (w : World) :
  App_run App_mount evs = Some w →
  screen (app w) = test →
  ∃ data, StartSettle (Ok (JsonValue data)) ∈ evs ∧
          quizQuestions (app w) = questions data ∧
          timeLimit (app w) = timeLimitSeconds data.
Proof.
  intros Hrun Hs.
  by destruct (App_run_quiz _ _ _ Hrun Hs) as [(? & _)|?].
Qed.

Lemma test_shows_server_questions_witness :
  ∃ w data,
    App_run App_mount (take 3 (sample_session (Rejects NonError))) = Some w ∧
    StartSettle (Ok (JsonValue data))
      ∈ take 3 (sample_session (Rejects NonError)) ∧
    quizQuestions (app w) = questions data.
Proof.
  eexists.
  destruct (test_shows_server_questions
              (take 3 (sample_session (Rejects NonError))) _ eq_refl eq_refl)
    as (data & Hin & Hq & _).
  exists data. split; [vm_compute; reflexivity|]. split; [exact Hin|exact Hq].
Defined.

(** X20: Test Again is offered only with results on screen; it brings back the
    selection screen with the categories still loaded, no questions, results,
    analysis or error, and nothing in flight, so that a new test can be
    started at once.  Only the time limit of the last test is kept. *)
Theorem test_again_resets (evs : list Event) (w w' : World) :
  App_run App_mount evs = Some w →
  App_step w TestAgain = Some w' →
  is_Some (testResults (app w)) ∧ screen (app w) = results ∧
  app w'
  = {| screen := selection; quizQuestions := []; testResults := None;
       analysis := None; error := None;
       allCategories := allCategories (app w);
       timeLimit := timeLimit (app w) |} ∧
  starting w' = 0%nat ∧ submitting w' = 0%nat ∧ sent w' = sent w ∧
  ∀ categories, is_Some (App_step w' (StartTest categories)).
Proof.
  intros Hrun Hstep.
  pose proof (App_run_inv _ _ _ App_mount_inv Hrun) as Hinv.
  unfold App_inv in Hinv. simpl in Hstep. app_step_cases Hstep.
  destruct Hinv as [Hcs Hcu]. simplify_eq.
  split_and!; eauto.
Qed.

Lemma test_again_resets_witness :
  ∃ w w',
    App_run App_mount (sample_session (Ok (JsonValue sample_submit))) = Some w ∧
    App_step w TestAgain = Some w' ∧
    screen (app w') = selection ∧ allCategories (app w') = [sample_category].
Proof.
  eexists _, _. split; [vm_compute; reflexivity|].
  split; [vm_compute; reflexivity|].
  pose proof (test_again_resets (sample_session (Ok (JsonValue sample_submit)))
                _ _ eq_refl eq_refl) as (_ & _ & Happ & _).
  split; [exact (f_equal screen Happ)|exact (f_equal allCategories Happ)].
Defined.

(** ** The bars of the results screen *)

(** X21: The breakdown has exactly one bar for each category of the results,
    labelled with its name and carrying its counts: no category is lost,
    duplicated or mixed up by the sorting. *)
Theorem one_bar_per_category (localeCompare : string → string → Z)
    (r : TestResults) (a : option Analysis) (e : option string) :
  let bars := breakdown (ResultsScreen localeCompare r a e) in
  length bars = size (categoryResults r) ∧
  NoDup (label <$> bars) ∧
  ∀ b, b ∈ bars ↔
       ∃ cr, categoryResults r !! label b = Some cr ∧
             b = ResultBar (label b) (correct cr) (total cr).
Proof.
  intros bars. subst bars. pose proof (bars_perm localeCompare r a e) as Hp.
  split; [|split].
  - by rewrite Hp, length_fmap, length_map_to_list.
  - rewrite Hp, <- list_fmap_compose.
    apply (NoDup_fst_map_to_list (categoryResults r)).
  - intros b. rewrite Hp, list_elem_of_fmap. split.
    + intros ([k cr] & -> & Hin). apply elem_of_map_to_list in Hin.
      exists cr. by simpl.
    + intros (cr & Hcr & Hb). exists (label b, cr).
      split; [done|]. by apply elem_of_map_to_list.
Qed.

Lemma percentage_value (correct total : Z) :
  0 < total →
  percentage correct total
  = Some ((inject_Z correct / inject_Z total) * 100)%Q.
Proof.
  intros Ht. unfold percentage. destruct (Z.ltb_spec 0 total); [|lia].
  by rewrite js_div_nonzero by lia.
Qed.

(** X22: For [total > 0] the width of a bar is not negative exactly when
    [correct] is not, and stays within 100% exactly when [correct] does not
    exceed [total]: counts that do not fit give a bar that does not fit. *)
Theorem percentage_in_range (correct total : Z) :
  0 < total →
  ∃ p, percentage correct total = Some p ∧
       ((0 <= p)%Q ↔ 0 ≤ correct) ∧
       ((p <= 100)%Q ↔ correct ≤ total) ∧
       ((p == 100)%Q ↔ correct = total).
Proof.
  intros Ht. rewrite percentage_value by done. eexists. split; [done|].
  destruct total as [|t|t]; [lia| |lia].
  unfold Qle, Qeq, Qdiv, Qmult, Qinv. simpl. split_and!; lia.
Qed.

Lemma percentage_in_range_witness :
  ∃ p, percentage 2 3 = Some p ∧ (0 <= p)%Q ∧ (p <= 100)%Q.
Proof.
  destruct (percentage_in_range 2 3 ltac:(lia)) as (p & Hp & H0 & H100 & _).
  exists p. split; [exact Hp|]. split; [apply H0; lia|apply H100; lia].
Defined.

Lemma sorted_by_cons {A} (R : A → A → Prop) x (l : list A) :
  sorted_by R (x :: l) ↔ Forall (R x) l ∧ sorted_by R l.
Proof.
  unfold sorted_by. split.
  - intros H. split.
    + apply Forall_lookup. intros j b Hb.
      apply (H 0%nat (Datatypes.S j) x b); [lia|done|done].
    + intros i j a b Hij Ha Hb.
      apply (H (Datatypes.S i) (Datatypes.S j) a b); [lia|done|done].
  - intros [Hx Hl] i j a b Hij Ha Hb. destruct j as [|j]; [lia|].
    simpl in Hb. destruct i as [|i]; simpl in Ha.
    + simplify_eq. by eapply (proj1 (Forall_lookup _ _) Hx).
    + apply (Hl i j a b); [lia|done|done].
Qed.

Section SortedEntries.
Variable localeCompare : string → string → Z.
Hypothesis Hconsistent : consistent_compare localeCompare.

Lemma compareKeys_insert_sorted x (l : list (string * CategoryResult)) :
  sorted_by (entry_le localeCompare) l →
  sorted_by (entry_le localeCompare) (sort_insert (compareKeys localeCompare) x l ()).1.
Proof.
  destruct Hconsistent as [Htotal Htrans].
  induction l as [|y rest IH]; intros Hsorted.
  - simpl. apply sorted_by_cons. split; [constructor|]. by intros i j a b ? ?.
  - apply sorted_by_cons in Hsorted as [Hy Hrest]. simpl.
    destruct (Qle_bool (inject_Z (localeCompare x.1 y.1)) 0) eqn:Hc.
    + apply Qle_bool_iff in Hc. unfold Qle in Hc. simpl in Hc.
      simpl. apply sorted_by_cons. split.
      * constructor; [unfold entry_le; lia|].
        eapply Forall_impl; [exact Hy|]. intros z Hz. unfold entry_le in *.
        apply (Htrans _ y.1); [lia|done].
      * apply sorted_by_cons. done.
    + assert (¬ (localeCompare x.1 y.1 ≤ 0)) as Hgt.
      { intros Hle. rewrite <- not_true_iff_false in Hc. apply Hc.
        apply Qle_bool_iff. unfold Qle. simpl. lia. }
      assert (entry_le localeCompare y x) as Hyx.
      { unfold entry_le. destruct (Htotal x.1 y.1); [done|done]. }
      pose proof (sort_insert_perm (compareKeys localeCompare) x rest ()) as Hp.
      specialize (IH Hrest).
      destruct (sort_insert (compareKeys localeCompare) x rest ())
        as [rest' u]. simpl in *.
      apply sorted_by_cons. split; [|done].
      rewrite Hp. by constructor.
Qed.

Lemma sortedEntries_sorted r :
  sorted_by (entry_le localeCompare) (sortedEntries localeCompare r).
Proof.
  unfold sortedEntries.
  induction (map_to_list (categoryResults r)) as [|x l IH]; simpl.
  - by intros i j a b ? ?.
  - destruct (array_sort (compareKeys localeCompare) l ()) as [sorted []].
    by apply compareKeys_insert_sorted.
Qed.

(** X23: With a comparison that is total and transitive, the bars of the
    breakdown come in the order of their labels: each bar's label compares
    as not greater than the label of every bar below it. *)
Theorem bars_in_label_order (r : TestResults) (a : option Analysis)
    (e : option string) :
  sorted_by (λ b1 b2, localeCompare (label b1) (label b2) ≤ 0)
    (breakdown (ResultsScreen localeCompare r a e)).
Proof.
  intros i j b1 b2 Hij H1 H2. simpl in H1, H2.
  rewrite list_lookup_fmap in H1, H2.
  destruct (sortedEntries localeCompare r !! i) as [e1|] eqn:He1; [|done].
  destruct (sortedEntries localeCompare r !! j) as [e2|] eqn:He2; [|done].
  simpl in H1, H2. simplify_eq. simpl.
  exact (sortedEntries_sorted r i j e1 e2 Hij He1 He2).
Qed.
End SortedEntries.

Lemma bars_in_label_order_witness :
  sorted_by (λ b1 b2, lengthCompare (label b1) (label b2) ≤ 0)
    (breakdown (ResultsScreen lengthCompare sample_results None None)) ∧
  label <$> breakdown (ResultsScreen lengthCompare sample_results None None)
  = ["Logic"; "Memory"].
Proof.
  split; [|vm_compute; reflexivity].
  apply (bars_in_label_order lengthCompare).
  unfold consistent_compare, lengthCompare. split; intros; lia.
Defined.

(** ** Reaching the Submit button *)

Lemma clicks_to_submit questions n : ∀ st,
  0 ≤ currentQuestionIndex st →
  currentQuestionIndex st + Z.of_nat n = questions_length questions - 1 →
  ∃ st', TestScreen_run questions (st, None)
           (replicate n ClickNext ++ [ClickSubmit])
         = Some (st', Some (userAnswers st)) ∧
         currentQuestionIndex st' = questions_length questions - 1 ∧
         timeLeft st' = timeLeft st.
Proof.
  induction n as [|n IH]; intros st H0 Hidx.
  - exists st. simpl.
    destruct (Z.ltb_spec (currentQuestionIndex st)
                (questions_length questions - 1)); [lia|].
    split; [done|]. split; [lia|done].
  - simpl. unfold handleNext.
    destruct (Z.ltb_spec (currentQuestionIndex st)
                (questions_length questions - 1)); [|lia].
    destruct (IH (setCurrentQuestionIndex (currentQuestionIndex st + 1) st))
      as (st' & Hrun & Hlast & Hleft); [simpl; lia..|].
    exists st'. by rewrite Hrun.
Qed.

(** X24: From every state the test screen can reach, clicking Next up to the last
    question and then Submit hands the answers recorded so far to
    [onSubmit], whatever the clock shows: the test can always be handed in
    early. *)
Theorem can_always_submit (questions : list Question) (L : Z)
    (evs : list TestEvent) (st : TestScreenState) :
  questions ≠ [] →
  TestScreen_exec questions L evs = Some (st, None) →
  ∃ st',
    TestScreen_exec questions L
      (evs ++ replicate (Z.to_nat (questions_length questions - 1
                                   - currentQuestionIndex st)) ClickNext
           ++ [ClickSubmit])
    = Some (st', Some (userAnswers st)).
Proof.
  intros Hne Hrun.
  pose proof (TestScreen_run_index _ _ _ _ _
                (mount_index_inv questions L Hne) Hrun) as [H0 Hlt].
  destruct (clicks_to_submit questions
              (Z.to_nat (questions_length questions - 1
                         - currentQuestionIndex st)) st H0 ltac:(lia))
    as (st' & Hrun' & _).
  exists st'. unfold TestScreen_exec in *.
  revert Hrun. generalize (TestScreen_mount questions L).
  induction evs as [|ev evs IH]; intros cur Hrun; simpl in *.
  - by simplify_eq.
  - destruct cur.2; [done|].
    destruct (TestScreen_step questions cur.1 ev); [|done]. by apply IH.
Qed.

Lemma can_always_submit_witness :
  ∃ st st',
    TestScreen_exec [sample_question; sample_question] 9 [ClickOption 2; Tick]
    = Some (st, None) ∧
    TestScreen_exec [sample_question; sample_question] 9
      ([ClickOption 2; Tick] ++ [ClickNext] ++ [ClickSubmit])
    = Some (st', Some (userAnswers st)).
Proof.
  eexists _.
  destruct (can_always_submit [sample_question; sample_question] 9
              [ClickOption 2; Tick] _ ltac:(discriminate) eq_refl)
    as (st' & Hrun).
  exists st'. split; [vm_compute; reflexivity|exact Hrun].
Defined.
